(** * The resilient iteration loop, the orchestrator and their collaborators

    A shallow embedding of [src/lib/iterationLoop.js] (the ResilientLoop and
    its entry point for planner responses) and of [agentOrchestrator.js]
    ([orchestrateQuery] and [processUserRequest]), together with models of
    the two collaborators whose sources are not part of the tree (the secret
    redactor and the command classifier).

    JavaScript strings are modelled as [string] (byte strings), counters as
    [nat], numeric options as [Z], and the one floating point quantity
    (percentages) as an exact rational or NaN/Infinity.  Asynchronous calls
    are sequential ([await] everywhere), so they are modelled in a state and
    exception monad over an abstract world. *)

From Stdlib Require Import String Ascii List ZArith QArith Bool Lia PeanoNat.
From Stdlib Require Import DecimalString DecimalNat Permutation.
Import ListNotations.

Local Open Scope string_scope.
Local Open Scope nat_scope.

(* ================================================================== *)
(** * JavaScript primitives *)
(* ================================================================== *)

Module JS.

(** The newline character, ["\n"]. *)
Definition nl : string := String (ascii_of_nat 10) EmptyString.

(** Template-literal rendering of a non-negative integer. *)
Definition string_of_nat (n : nat) : string :=
  NilEmpty.string_of_uint (Nat.to_uint n).

(** Truthiness of a value that is either [undefined] or a string. *)
Definition truthy (o : option string) : bool :=
  match o with
  | Some s => negb (String.eqb s "")
  | None => false
  end.

(** Truthiness of a value that is either [undefined] or a boolean. *)
Definition truthy_flag (o : option bool) : bool :=
  match o with
  | Some b => b
  | None => false
  end.

(** [a || b] on optional strings. *)
Definition or_else (a b : option string) : option string :=
  if truthy a then a else b.

(** [s.substring(0, n)]. *)
Definition prefix_of (n : nat) (s : string) : string := substring 0 n s.

(** [arr.slice(-n)]: the last [n] elements. *)
Definition last_n {A : Type} (n : nat) (l : list A) : list A :=
  skipn (length l - n) l.

(** [arr.join(sep)]. *)
Definition join (sep : string) (l : list string) : string :=
  String.concat sep l.

(** White space as matched by [\s] and removed by [trim], restricted to the
    one-byte characters: tab, line feed, vertical tab, form feed, carriage
    return and space. *)
Definition is_space (c : ascii) : bool :=
  let n := nat_of_ascii c in
  ((9 <=? n) && (n <=? 13)) || (n =? 32).

(** [\d]. *)
Definition is_digit (c : ascii) : bool :=
  let n := nat_of_ascii c in
  (48 <=? n) && (n <=? 57).

Fixpoint trim_start (s : string) : string :=
  match s with
  | EmptyString => EmptyString
  | String c r => if is_space c then trim_start r else s
  end.

Fixpoint trim_end (s : string) : string :=
  match s with
  | EmptyString => EmptyString
  | String c r =>
      match trim_end r with
      | EmptyString => if is_space c then EmptyString else String c EmptyString
      | r' => String c r'
      end
  end.

(** [s.trim()]. *)
Definition trim (s : string) : string := trim_end (trim_start s).

(** [s.split('\n')]. *)
Fixpoint split_lines (s : string) : list string :=
  match s with
  | EmptyString => [EmptyString]
  | String c r =>
      if Ascii.eqb c (ascii_of_nat 10) then EmptyString :: split_lines r
      else match split_lines r with
           | l :: ls => String c l :: ls
           | [] => [String c EmptyString]
           end
  end.

Fixpoint drop_digits (s : string) : string :=
  match s with
  | String c r => if is_digit c then drop_digits r else s
  | EmptyString => EmptyString
  end.

(** The text after a match of [/^\d+\./], when there is one. *)
Definition after_number_dot (s : string) : option string :=
  match s with
  | String c r =>
      if is_digit c then
        match drop_digits r with
        | String d rest => if Ascii.eqb d "."%char then Some rest else None
        | EmptyString => None
        end
      else None
  | EmptyString => None
  end.

(** [/^\d+\./.test(s)]. *)
Definition test_number_dot (s : string) : bool :=
  match after_number_dot s with Some _ => true | None => false end.

(** [s.replace(/^\d+\.\s*/, '')]. *)
Definition strip_number_dot (s : string) : string :=
  match after_number_dot s with
  | Some rest => trim_start rest
  | None => s
  end.

(** JavaScript numbers that arise from [(a / b) * 100] on array lengths. *)
Inductive number : Type :=
| NaN
| Infinity
| Finite (q : Q).

(** [(a / b) * 100] for non-negative integers [a] and [b]; the quotient is
    kept exact. *)
Definition percent (a b : nat) : number :=
  match b, a with
  | O, O => NaN
  | O, S _ => Infinity
  | S _, _ => Finite ((inject_Z (Z.of_nat a) / inject_Z (Z.of_nat b)) * 100)%Q
  end.

(** A thrown [Error]; only its [message] is ever read. *)
Record Error : Type := mkError { message : string }.

End JS.

(* ================================================================== *)
(** * Values exchanged with the collaborators *)
(* ================================================================== *)

(** The object returned by [queryOpenAI]; a field that is absent is [None]. *)
Record Response : Type := mkResponse {
  choice : string;
  terminalCommand : option string;
  commandReasoning : option string;
  requiresApproval : option bool;
  code : option string;
  response : option string
}.

(** First argument of [executeAgentCommand]. *)
Record AgentCommand : Type := mkAgentCommand {
  command : option string;
  cmd_commandReasoning : option string;
  cmd_requiresApproval : option bool
}.

(** Second argument of [executeAgentCommand]; a key that the caller does not
    write is [None]. *)
Record ExecOptions : Type := mkExecOptions {
  autoApprove : option bool;
  dryRun : option bool;
  timeout : option Z;
  allowDangerous : option bool
}.

(** The object returned by [executeAgentCommand]. *)
Record CommandResult : Type := mkCommandResult {
  status : string;
  stdout : option string;
  stderr : option string
}.

(** What a completed step stores under [result]:
    [result.executionResult || result.code || result.message]. *)
Inductive ResultValue : Type :=
| RExec (r : CommandResult)
| RText (s : string).

Definition result_truthy (r : option ResultValue) : bool :=
  match r with
  | Some (RExec _) => true
  | Some (RText s) => negb (String.eqb s "")
  | None => false
  end.

(** The object returned by [executeStep]. *)
Record StepOutcome : Type := mkStepOutcome {
  so_response : option Response;
  executed : bool;
  executionResult : option CommandResult;
  success : option bool;
  so_code : option string;
  so_message : option string;
  error : option string;
  errorDetails : option JS.Error
}.

(** Entries of [context.completedSteps], [context.failures] and
    [context.recoveryAttempts]. *)
Record CompletedStep : Type := mkCompletedStep {
  cs_step : string;
  cs_iteration : nat;
  cs_status : string;
  cs_result : option ResultValue
}.

Record Failure : Type := mkFailure {
  f_step : string;
  f_iteration : nat;
  f_error : string;
  f_details : option JS.Error
}.

Record RecoveryAttempt : Type := mkRecoveryAttempt {
  ra_step : string;
  ra_iteration : nat;
  ra_solution : string
}.

(** Payloads handed to the [onProgress] callback. *)
Inductive Progress : Type :=
| ProgressSuccess (step : string) (iteration : nat) (progress : JS.number)
| ProgressFailure (step : string) (iteration consecutiveFailures : nat)
    (err : option string)
| ProgressReassessment (iteration newStepCount : nat)
| ProgressRecovery (step : string) (iteration : nat) (solution : string).

(* ================================================================== *)
(** * The monad of the loop: state, trace and exceptions *)
(* ================================================================== *)

(** An [await]ed call either returns a value or throws. *)
Inductive Outcome (A : Type) : Type :=
| Returned (a : A)
| Thrown (e : JS.Error).

Arguments Returned {A} a.
Arguments Thrown {A} e.

(** Second argument of [queryOpenAI] as the loop writes it; [G] is the type
    of the caller's [globalContext]. *)
Record QueryOptions (G : Type) : Type := mkQueryOptions {
  q_temperature : Q;
  q_context : option G
}.

Arguments mkQueryOptions {G} _ _.
Arguments q_temperature {G} _.
Arguments q_context {G} _.

(** What [iterationLoop.js] imports and the built-ins it applies to objects.
    [World] is the state of everything outside the loop (the model behind
    [queryOpenAI], the machine behind [executeAgentCommand]); each call may
    return or throw, and may change the world. *)
Class Collaborators : Type := {
  World : Type;
  GlobalContext : Type;
  queryOpenAI :
    string -> QueryOptions GlobalContext -> World -> Outcome Response * World;
  executeAgentCommand :
    AgentCommand -> ExecOptions -> World -> Outcome CommandResult * World;
  (** [JSON.stringify] on the three kinds of object it is applied to. *)
  JSON_stringify : ResultValue -> string;
  JSON_stringify_indented : StepOutcome -> string;
  JSON_stringify_response : Response -> string
}.

Section ResilientLoop.

Context {C : Collaborators}.

(** What the loop does to the outside, in order: each call with its
    arguments and how it ended, and each progress notification. *)
Inductive Event : Type :=
| EvQuery (prompt : string) (opts : QueryOptions GlobalContext)
    (answer : Outcome Response)
| EvExec (cmd : AgentCommand) (opts : ExecOptions)
    (result : Outcome CommandResult)
| EvProgress (p : Progress).

Record Env : Type := mkEnv {
  world : World;
  trace : list Event
}.

Definition M (A : Type) : Type := Env -> Outcome A * Env.

Definition ret {A : Type} (a : A) : M A := fun env => (Returned a, env).

Definition bind {A B : Type} (m : M A) (k : A -> M B) : M B :=
  fun env =>
    match m env with
    | (Returned a, env') => k a env'
    | (Thrown e, env') => (Thrown e, env')
    end.

Definition throw {A : Type} (e : JS.Error) : M A := fun env => (Thrown e, env).

(** [try { body } catch (error) { handler }]. *)
Definition try_catch {A : Type} (body : M A) (handler : JS.Error -> M A) : M A :=
  fun env =>
    match body env with
    | (Returned a, env') => (Returned a, env')
    | (Thrown e, env') => handler e env'
    end.

Definition emit (e : Event) : M unit :=
  fun env => (Returned tt, mkEnv (world env) (trace env ++ [e])).

Notation "x <- m ;; k" := (bind m (fun x => k))
  (at level 100, m at next level, right associativity).
Notation "m ;;; k" := (bind m (fun _ => k))
  (at level 100, right associativity).

(** [await queryOpenAI(prompt, opts)]. *)
Definition call_queryOpenAI (prompt : string)
    (opts : QueryOptions GlobalContext) : M Response :=
  fun env =>
    let (r, w) := queryOpenAI prompt opts (world env) in
    (r, mkEnv w (trace env ++ [EvQuery prompt opts r])).

(** [await executeAgentCommand(cmd, opts)]. *)
Definition call_executeAgentCommand (cmd : AgentCommand) (opts : ExecOptions)
  : M CommandResult :=
  fun env =>
    let (r, w) := executeAgentCommand cmd opts (world env) in
    (r, mkEnv w (trace env ++ [EvExec cmd opts r])).

(** The [context] object of one loop run. *)
Record ExecutionContext : Type := mkContext {
  completedSteps : list CompletedStep;
  failures : list Failure;
  recoveryAttempts : list RecoveryAttempt;
  reassessments : nat;
  globalContext : option GlobalContext
}.

(* ================================================================== *)
(** * executeStep *)
(* ================================================================== *)

Fixpoint mapi_from {A B : Type} (i : nat) (f : nat -> A -> B) (l : list A)
  : list B :=
  match l with
  | [] => []
  | x :: r => f i x :: mapi_from (S i) f r
  end.

(** [arr.map((x, i) => f(i, x))]. *)
Definition mapi {A B : Type} (f : nat -> A -> B) (l : list A) : list B :=
  mapi_from 0 f l.

Definition completed_step_lines (i : nat) (s : CompletedStep) : list string :=
  (JS.string_of_nat (i + 1) ++ ". " ++ cs_step s ++ " → " ++ cs_status s)
  :: match cs_result s with
     | Some v =>
         if result_truthy (Some v)
         then ["   Result: " ++ JS.prefix_of 200 (JSON_stringify v)]
         else []
     | None => []
     end.

Definition failure_line (f : Failure) : string :=
  "- " ++ f_step f ++ ": " ++ f_error f.

(** The [query] that [executeStep] builds from the context and the step. *)
Definition step_query (step : string) (context : ExecutionContext) : string :=
  JS.join JS.nl
    ((match completedSteps context with
      | [] => []
      | _ => "Previously completed steps:"
             :: List.concat (mapi completed_step_lines (completedSteps context))
      end)
     ++ (match failures context with
         | [] => []
         | _ => (JS.nl ++ "Recent failures to be aware of:")
                :: map failure_line (JS.last_n 3 (failures context))
         end)
     ++ [JS.nl ++ "Current step to execute: " ++ step;
         JS.nl ++ "Execute this step. If it requires a terminal command, use terminalCommand choice. If it requires code, use code choice."]).

(** The options with which [executeStep] runs a terminal command. *)
Definition step_exec_options : ExecOptions :=
  {| autoApprove := Some true;
     dryRun := Some false;
     timeout := Some 60000%Z;
     allowDangerous := None |}.

Definition executeStep (step : string) (context : ExecutionContext) (temperature : Q)
  : M StepOutcome :=
  let query := step_query step context in
  try_catch
    (resp <- call_queryOpenAI query
               {| q_temperature := temperature;
                  q_context := globalContext context |} ;;
     if String.eqb (choice resp) "terminalCommand" then
       er <- call_executeAgentCommand
               {| command := terminalCommand resp;
                  cmd_commandReasoning := commandReasoning resp;
                  cmd_requiresApproval := requiresApproval resp |}
               step_exec_options ;;
       ret {| so_response := Some resp; executed := true;
              executionResult := Some er;
              success := Some (String.eqb (status er) "success");
              so_code := None; so_message := None;
              error := None; errorDetails := None |}
     else if String.eqb (choice resp) "code" then
       ret {| so_response := Some resp; executed := true;
              executionResult := None; success := Some true;
              so_code := code resp; so_message := None;
              error := None; errorDetails := None |}
     else if String.eqb (choice resp) "response" then
       ret {| so_response := Some resp; executed := true;
              executionResult := None; success := Some true;
              so_code := None; so_message := response resp;
              error := None; errorDetails := None |}
     else
       ret {| so_response := Some resp; executed := false;
              executionResult := None; success := None;
              so_code := None; so_message := None;
              error := None; errorDetails := None |})
    (fun e =>
       ret {| so_response := None; executed := false;
              executionResult := None; success := Some false;
              so_code := None; so_message := None;
              error := Some (JS.message e); errorDetails := Some e |}).

(* ================================================================== *)
(** * createRecoverySolution *)
(* ================================================================== *)

(** The object returned by [createRecoverySolution]. *)
Inductive Recovery : Type :=
| RecoveryCreated (recoverySolution : string) (recoveryAction : Response)
| RecoveryFailed (err : string).

Definition recovery_prompt (step : string) (failureInfo : StepOutcome)
    (context : ExecutionContext) : string :=
  JS.join JS.nl
    [""; "A step failed during execution. Analyze the failure and create a recovery solution.";
     "";
     "Failed Step: " ++ step;
     "";
     "Failure Information:";
     JSON_stringify_indented failureInfo;
     "";
     "Previous Context:";
     JS.string_of_nat (length (completedSteps context))
       ++ " steps completed successfully before this failure.";
     "";
     "Your task: Provide a solution to overcome this failure and continue. This could be:";
     "- An alternative approach to accomplish the same goal";
     "- A fix for the error encountered";
     "- A workaround for the issue";
     "- Additional steps needed before retrying";
     "";
     "Respond with a clear recovery plan.";
     ""].

(** [response.response || response.code || fallback]. *)
Definition response_text (resp : Response) (fallback : string) : string :=
  match JS.or_else (response resp) (code resp) with
  | Some s => if JS.truthy (Some s) then s else fallback
  | None => fallback
  end.

Definition createRecoverySolution (step : string) (failureInfo : StepOutcome)
    (context : ExecutionContext) : M Recovery :=
  try_catch
    (resp <- call_queryOpenAI (recovery_prompt step failureInfo context)
               {| q_temperature := 0.7; q_context := globalContext context |} ;;
     ret (RecoveryCreated (response_text resp "Retry with modifications") resp))
    (fun e => ret (RecoveryFailed (JS.message e))).

(* ================================================================== *)
(** * reassessPlan *)
(* ================================================================== *)

(** The object returned by [reassessPlan]. *)
Inductive Reassessment : Type :=
| Reassessed (revisedSteps : list string) (reasoning : string)
    (originalResponse : Response)
| ReassessmentFailed (err : string) (revisedSteps : list string).

Definition numbered (i : nat) (s : string) : string :=
  JS.string_of_nat (i + 1) ++ ". " ++ s.

Definition reassess_prompt (steps : list string) (context : ExecutionContext) : string :=
  JS.join JS.nl
    [""; "The current execution plan has encountered multiple failures. Reassess and create an improved plan.";
     "";
     "Original Plan:";
     JS.join JS.nl (mapi numbered steps);
     "";
     "Execution History:";
     "Completed: " ++ JS.string_of_nat (length (completedSteps context)) ++ " steps";
     "Failed: " ++ JS.string_of_nat (length (failures context)) ++ " times";
     "";
     "Recent Failures:";
     JS.join JS.nl (map failure_line (JS.last_n 5 (failures context)));
     "";
     "Your task: ";
     "1. Analyze what went wrong";
     "2. Create a revised plan that addresses the issues";
     "3. Consider alternative approaches";
     "4. Break down complex steps into simpler ones if needed";
     "";
     "Provide a revised list of steps to continue from the current point.";
     ""].

(** The numbered lines of the Oracle's answer, without their numbers. *)
Definition parse_revised_steps (text : string) : list string :=
  map (fun line => JS.trim (JS.strip_number_dot line))
      (filter (fun line => JS.test_number_dot (JS.trim line))
              (JS.split_lines text)).

Definition extract_revised_steps (resp : Response) : list string :=
  if String.eqb (choice resp) "response" && JS.truthy (response resp)
  then match response resp with
       | Some text => parse_revised_steps text
       | None => []
       end
  else [].

Definition reassessPlan (steps : list string) (context : ExecutionContext)
  : M Reassessment :=
  try_catch
    (resp <- call_queryOpenAI (reassess_prompt steps context)
               {| q_temperature := 0.8; q_context := globalContext context |} ;;
     let revisedSteps := extract_revised_steps resp in
     ret (Reassessed
            (match revisedSteps with [] => steps | _ => revisedSteps end)
            (match response resp with
             | Some s => if JS.truthy (Some s) then s else "Plan reassessed"
             | None => "Plan reassessed"
             end)
            resp))
    (fun e => ret (ReassessmentFailed (JS.message e) steps)).

(* ================================================================== *)
(** * executeStepsWithResilience: one iteration *)
(* ================================================================== *)

(** The [options] object.  The keys after [verificationPrompt] are ones a
    caller may write but the function never reads. *)
Record Options : Type := mkOptions {
  maxIterations : option Z;
  maxConsecutiveFailures : option Z;
  temperature : option Q;
  opt_globalContext : option GlobalContext;
  onProgress : bool;
  verify : bool;
  verificationPrompt : option string;
  opt_autoApprove : option bool;
  opt_dryRun : option bool;
  opt_timeout : option Z;
  opt_allowDangerous : option bool
}.

Definition get_maxIterations (o : Options) : Z :=
  match maxIterations o with Some n => n | None => 50%Z end.

Definition get_maxConsecutiveFailures (o : Options) : Z :=
  match maxConsecutiveFailures o with Some n => n | None => 3%Z end.

Definition get_temperature (o : Options) : Q :=
  match temperature o with Some t => t | None => 0.5%Q end.

(** The local variables of the [while] loop. *)
Record LoopState : Type := mkLoopState {
  context : ExecutionContext;
  currentSteps : list string;
  currentStepIndex : nat;
  iteration : nat;
  consecutiveFailures : nat
}.

(** [if (onProgress) onProgress(p)]. *)
Definition report (o : Options) (p : Progress) : M unit :=
  if onProgress o then emit (EvProgress p) else ret tt.

(** [result.executionResult || result.code || result.message]. *)
Definition outcome_result (r : StepOutcome) : option ResultValue :=
  match executionResult r with
  | Some er => Some (RExec er)
  | None =>
      if JS.truthy (so_code r)
      then option_map RText (so_code r)
      else option_map RText (so_message r)
  end.

(** [result.error || 'Unknown error']. *)
Definition outcome_error (r : StepOutcome) : string :=
  match error r with
  | Some s => if JS.truthy (Some s) then s else "Unknown error"
  | None => "Unknown error"
  end.

(** The options with which a recovery command is run. *)
Definition recovery_exec_options : ExecOptions :=
  {| autoApprove := Some true;
     dryRun := None;
     timeout := Some 60000%Z;
     allowDangerous := None |}.

Definition push_completed (c : ExecutionContext) (x : CompletedStep) : ExecutionContext :=
  {| completedSteps := completedSteps c ++ [x];
     failures := failures c;
     recoveryAttempts := recoveryAttempts c;
     reassessments := reassessments c;
     globalContext := globalContext c |}.

Definition push_failure (c : ExecutionContext) (x : Failure) : ExecutionContext :=
  {| completedSteps := completedSteps c;
     failures := failures c ++ [x];
     recoveryAttempts := recoveryAttempts c;
     reassessments := reassessments c;
     globalContext := globalContext c |}.

Definition push_recovery (c : ExecutionContext) (x : RecoveryAttempt) : ExecutionContext :=
  {| completedSteps := completedSteps c;
     failures := failures c;
     recoveryAttempts := recoveryAttempts c ++ [x];
     reassessments := reassessments c;
     globalContext := globalContext c |}.

Definition incr_reassessments (c : ExecutionContext) : ExecutionContext :=
  {| completedSteps := completedSteps c;
     failures := failures c;
     recoveryAttempts := recoveryAttempts c;
     reassessments := S (reassessments c);
     globalContext := globalContext c |}.

(** The branch taken when [consecutiveFailures >= maxConsecutiveFailures]. *)
Definition reassess_branch (o : Options) (ctx : ExecutionContext) (steps : list string)
    (idx it cf : nat) : M LoopState :=
  reassessment <- reassessPlan (skipn idx steps) ctx ;;
  match reassessment with
  | Reassessed revisedSteps _ _ =>
      let steps' := (firstn idx steps ++ revisedSteps)%list in
      report o (ProgressReassessment it (length steps' - idx)) ;;;
      ret {| context := incr_reassessments ctx;
             currentSteps := steps';
             currentStepIndex := idx;
             iteration := it;
             consecutiveFailures := 0 |}
  | ReassessmentFailed _ _ =>
      ret {| context := ctx;
             currentSteps := steps;
             currentStepIndex := idx;
             iteration := it;
             consecutiveFailures := cf |}
  end.

(** The branch taken below the threshold. *)
Definition recovery_branch (o : Options) (ctx : ExecutionContext) (steps : list string)
    (idx it cf : nat) (step : string) (result : StepOutcome) : M LoopState :=
  recovery <- createRecoverySolution step result ctx ;;
  match recovery with
  | RecoveryCreated solution action =>
      let ctx' := push_recovery ctx
                    {| ra_step := step; ra_iteration := it;
                       ra_solution := solution |} in
      cf' <- (if String.eqb (choice action) "terminalCommand" then
                recoveryResult <- call_executeAgentCommand
                     {| command := terminalCommand action;
                        cmd_commandReasoning := Some "Recovery attempt";
                        cmd_requiresApproval := Some false |}
                     recovery_exec_options ;;
                ret (if String.eqb (status recoveryResult) "success"
                     then 0 else cf)
              else ret cf) ;;
      report o (ProgressRecovery step it solution) ;;;
      ret {| context := ctx';
             currentSteps := steps;
             currentStepIndex := idx;
             iteration := it;
             consecutiveFailures := cf' |}
  | RecoveryFailed _ =>
      ret {| context := ctx;
             currentSteps := steps;
             currentStepIndex := idx;
             iteration := it;
             consecutiveFailures := cf |}
  end.

(** The body of the [while] loop. *)
Definition loop_body (o : Options) (st : LoopState) : M LoopState :=
  let it := S (iteration st) in
  let steps := currentSteps st in
  let idx := currentStepIndex st in
  let step := nth idx steps "" in
  result <- executeStep step (context st) (get_temperature o) ;;
  if JS.truthy_flag (success result) then
    let ctx := push_completed (context st)
                 {| cs_step := step; cs_iteration := it;
                    cs_status := "success";
                    cs_result := outcome_result result |} in
    report o (ProgressSuccess step it (JS.percent (S idx) (length steps))) ;;;
    ret {| context := ctx;
           currentSteps := steps;
           currentStepIndex := S idx;
           iteration := it;
           consecutiveFailures := 0 |}
  else
    let cf := S (consecutiveFailures st) in
    let ctx := push_failure (context st)
                 {| f_step := step; f_iteration := it;
                    f_error := outcome_error result;
                    f_details := errorDetails result |} in
    report o (ProgressFailure step it cf (error result)) ;;;
    if (get_maxConsecutiveFailures o <=? Z.of_nat cf)%Z
    then reassess_branch o ctx steps idx it cf
    else recovery_branch o ctx steps idx it cf step result.

(** The condition of the [while] loop. *)
Definition loop_guard (o : Options) (st : LoopState) : bool :=
  (currentStepIndex st <? length (currentSteps st))
  && (Z.of_nat (iteration st) <? get_maxIterations o)%Z.

(** The [while] loop.  [None] is returned only if [fuel] iterations were not
    enough to leave the loop. *)
Fixpoint run_loop (o : Options) (fuel : nat) (st : LoopState)
  : M (option LoopState) :=
  if loop_guard o st then
    match fuel with
    | O => ret None
    | S fuel' => st' <- loop_body o st ;; run_loop o fuel' st'
    end
  else ret (Some st).

(* ================================================================== *)
(** * verifyRequestFulfillment *)
(* ================================================================== *)

(** The object returned by [verifyRequestFulfillment]. *)
Record Verification : Type := mkVerification {
  fulfilled : bool;
  issues : list string;
  analysis : option string;
  v_response : option Response;
  v_error : option string
}.

Definition lower_char (c : ascii) : ascii :=
  let n := nat_of_ascii c in
  if (65 <=? n) && (n <=? 90) then ascii_of_nat (n + 32) else c.

Fixpoint lower (s : string) : string :=
  match s with
  | EmptyString => EmptyString
  | String c r => String (lower_char c) (lower r)
  end.

Fixpoint contains (needle hay : string) : bool :=
  String.prefix needle hay
  || match hay with
     | EmptyString => false
     | String _ r => contains needle r
     end.

(** [/(k1|k2|...)/i.test(text)] for lower-case keywords. *)
Definition mentions_any (keywords : list string) (text : string) : bool :=
  existsb (fun k => contains k (lower text)) keywords.

(** The text after a match of [/^[-•*]\s+/], when there is one. *)
Definition after_bullet (s : string) : option string :=
  let rest :=
    if String.prefix "-" s then Some (substring 1 (String.length s - 1) s)
    else if String.prefix "*" s then Some (substring 1 (String.length s - 1) s)
    else if String.prefix "•" s
         then Some (substring (String.length "•")
                              (String.length s - String.length "•") s)
         else None in
  match rest with
  | Some (String c r) =>
      if JS.is_space c then Some (JS.trim_start r) else None
  | _ => None
  end.

Definition issue_of_line (line : string) : option string :=
  let t := JS.trim line in
  if (match after_bullet t with Some _ => true | None => false end)
     || mentions_any ["issue"; "problem"; "missing"; "incomplete"] line
  then Some (match after_bullet t with Some r => r | None => t end)
  else None.

Fixpoint filter_map {A B : Type} (f : A -> option B) (l : list A) : list B :=
  match l with
  | [] => []
  | x :: r =>
      match f x with
      | Some y => y :: filter_map f r
      | None => filter_map f r
      end
  end.

Fixpoint all_some {A : Type} (l : list (option A)) : option (list A) :=
  match l with
  | [] => Some []
  | None :: _ => None
  | Some x :: r => option_map (cons x) (all_some r)
  end.

(** One block of the COMPLETED WORK section.  [JSON.stringify(undefined)] is
    [undefined], on which [.substring] throws: that case is [None]. *)
Definition verification_block (i : nat) (s : CompletedStep) : option string :=
  match cs_result s with
  | Some v =>
      Some (JS.join JS.nl
              [""; "Step " ++ JS.string_of_nat (i + 1) ++ ": " ++ cs_step s;
               "Status: " ++ cs_status s;
               "Result: " ++ JS.prefix_of 200 (JSON_stringify v);
               ""])
  | None => None
  end.

Definition undefined_substring : JS.Error :=
  JS.mkError "Cannot read properties of undefined (reading 'substring')".

(** [verificationPrompt || `...`]: the template is evaluated only when no
    prompt was given, and evaluating it may throw. *)
Definition verification_prompt (originalSteps : list string)
    (context : ExecutionContext) (o : Options) : M string :=
  if JS.truthy (verificationPrompt o) then
    ret (match verificationPrompt o with Some p => p | None => "" end)
  else
    match all_some (mapi verification_block (completedSteps context)) with
    | None => throw undefined_substring
    | Some blocks =>
        ret (JS.join JS.nl
          [""; "Review the completed work and verify if the original request was fully fulfilled.";
           "";
           "ORIGINAL REQUEST (Steps to complete):";
           JS.join JS.nl (mapi numbered originalSteps);
           "";
           "COMPLETED WORK:";
           JS.join JS.nl blocks;
           "";
           match failures context with
           | [] => ""
           | fs => JS.join JS.nl
                     [""; "FAILURES ENCOUNTERED:";
                      JS.join JS.nl (map failure_line fs); ""]
           end;
           "";
           "Your task:";
           "1. Compare the original request with what was actually completed";
           "2. Check if all requirements were met";
           "3. Identify any discrepancies or missing elements";
           "4. Verify the quality and correctness of the work";
           "";
           "Provide a detailed assessment of whether the request was fully fulfilled.";
           ""])
    end.

Definition verifyRequestFulfillment (originalSteps : list string)
    (context : ExecutionContext) (o : Options) : M Verification :=
  prompt <- verification_prompt originalSteps context o ;;
  try_catch
    (resp <- call_queryOpenAI prompt
               {| q_temperature := get_temperature o;
                  q_context := globalContext context |} ;;
     let responseText := response_text resp (JSON_stringify_response resp) in
     ret {| fulfilled :=
              negb (mentions_any ["not fulfilled"; "incomplete"; "missing";
                                  "failed"; "issue"; "problem"] responseText)
              || mentions_any ["fully fulfilled"; "complete"; "success";
                               "all requirements met"] responseText;
            issues := firstn 10 (filter_map issue_of_line
                                   (JS.split_lines responseText));
            analysis := Some responseText;
            v_response := Some resp;
            v_error := None |})
    (fun e =>
       ret {| fulfilled := false;
              issues := ["Verification error: " ++ JS.message e];
              analysis := None;
              v_response := None;
              v_error := Some (JS.message e) |}).

(* ================================================================== *)
(** * executeStepsWithResilience *)
(* ================================================================== *)

(** The summary object that the function returns. *)
Record Summary : Type := mkSummary {
  s_success : bool;
  s_completed : bool;
  reachedMaxIterations : bool;
  totalSteps : nat;
  s_completedSteps : list CompletedStep;
  failureCount : nat;
  s_failures : list Failure;
  s_recoveryAttempts : list RecoveryAttempt;
  s_reassessments : nat;
  iterations : nat;
  successRate : JS.number;
  verification : option Verification
}.

Definition initial_state (steps : list string) (o : Options) : LoopState :=
  {| context := {| completedSteps := [];
                   failures := [];
                   recoveryAttempts := [];
                   reassessments := 0;
                   globalContext := opt_globalContext o |};
     currentSteps := steps;
     currentStepIndex := 0;
     iteration := 0;
     consecutiveFailures := 0 |}.

(** Everything after the [while] loop. *)
Definition summarize (steps : list string) (o : Options) (st : LoopState)
  : M Summary :=
  let ctx := context st in
  let allCompleted := length (currentSteps st) <=? currentStepIndex st in
  let reachedMax := (get_maxIterations o <=? Z.of_nat (iteration st))%Z in
  v <- (if verify o && allCompleted
        then r <- verifyRequestFulfillment steps ctx o ;; ret (Some r)
        else ret None) ;;
  ret {| s_success := allCompleted;
         s_completed := allCompleted;
         reachedMaxIterations := reachedMax;
         totalSteps := length (currentSteps st);
         s_completedSteps := completedSteps ctx;
         failureCount := length (failures ctx);
         s_failures := failures ctx;
         s_recoveryAttempts := recoveryAttempts ctx;
         s_reassessments := reassessments ctx;
         iterations := iteration st;
         successRate := JS.percent (length (completedSteps ctx))
                                   (length (currentSteps st));
         verification := v |}.

(** The function with an explicit bound on the number of loop iterations;
    [None] means the bound was too small. *)
Definition executeStepsWithResilience_upto (fuel : nat) (steps : list string)
    (o : Options) : M (option Summary) :=
  final <- run_loop o fuel (initial_state steps o) ;;
  match final with
  | Some st => s <- summarize steps o st ;; ret (Some s)
  | None => ret None
  end.

(** The exported function.  The loop condition itself bounds the number of
    iterations by [maxIterations], which is therefore enough fuel. *)
Definition executeStepsWithResilience (steps : list string) (o : Options)
  : M (option Summary) :=
  executeStepsWithResilience_upto (Z.to_nat (get_maxIterations o)) steps o.

End ResilientLoop.

(* ================================================================== *)
(** * executePlanWithResilience *)
(* ================================================================== *)

Section PlanEntry.

Context {C : Collaborators}.

(** An element of [planResponse.steps]: a string, or an object, of which
    only [stepDescription] is read. *)
Inductive PlanItem : Type :=
| ItemText (s : string)
| ItemObject (stepDescription : option string).

(** [planResponse]: an array of steps, or an object that may have a [steps]
    array. *)
Inductive PlanResponse : Type :=
| PlanArray (steps : list string)
| PlanObject (steps : option (list PlanItem)).

(** [item.stepDescription]. *)
Definition stepDescription_of (i : PlanItem) : option string :=
  match i with
  | ItemText _ => None
  | ItemObject d => d
  end.

(** The text that a template literal makes of a step.  The loop reads a
    step in template literals only, so it is run on these texts; where a
    step is not a string, the records of the summary hold its text in place
    of the value itself. *)
Definition step_text (i : PlanItem) : string :=
  match i with
  | ItemText s => s
  | ItemObject _ => "[object Object]"
  end.

(** The text of [s.stepDescription], which is [undefined] where an element
    has none. *)
Definition description_text (d : option string) : string :=
  match d with
  | Some s => s
  | None => "undefined"
  end.

(** The [steps] that the function hands to the loop, unless it throws. *)
Definition plan_steps (planResponse : PlanResponse) : Outcome (list string) :=
  match planResponse with
  | PlanArray steps => Returned steps
  | PlanObject (Some items) =>
      if JS.truthy (match items with
                    | first :: _ => stepDescription_of first
                    | [] => None
                    end)
      then Returned (map (fun s => description_text (stepDescription_of s)) items)
      else Returned (map step_text items)
  | PlanObject None => Thrown (JS.mkError "Invalid plan response format")
  end.

Definition executePlanWithResilience (planResponse : PlanResponse) (o : Options)
  : M (option Summary) :=
  match plan_steps planResponse with
  | Returned steps => executeStepsWithResilience steps o
  | Thrown e => throw e
  end.

End PlanEntry.

(* ================================================================== *)
(** * Regular expressions *)
(* ================================================================== *)

Module Regex.


(** Regular expressions over bytes, matched with Brzozowski derivatives. *)
Inductive Regex : Type :=
| Void
| Eps
| Class (p : ascii -> bool)
| Cat (r1 r2 : Regex)
| Alt (r1 r2 : Regex)
| Star (r : Regex).

Fixpoint nullable (r : Regex) : bool :=
  match r with
  | Void => false
  | Eps => true
  | Class _ => false
  | Cat r1 r2 => nullable r1 && nullable r2
  | Alt r1 r2 => nullable r1 || nullable r2
  | Star _ => true
  end.

Fixpoint deriv (c : ascii) (r : Regex) : Regex :=
  match r with
  | Void => Void
  | Eps => Void
  | Class p => if p c then Eps else Void
  | Cat r1 r2 =>
      if nullable r1
      then Alt (Cat (deriv c r1) r2) (deriv c r2)
      else Cat (deriv c r1) r2
  | Alt r1 r2 => Alt (deriv c r1) (deriv c r2)
  | Star r1 => Cat (deriv c r1) (Star r1)
  end.

(** Does [r] match the whole of [s]? *)
Fixpoint matches (r : Regex) (s : string) : bool :=
  match s with
  | EmptyString => nullable r
  | String c rest => matches (deriv c r) rest
  end.

Definition chr (c : ascii) : Regex := Class (Ascii.eqb c).

Fixpoint lit (s : string) : Regex :=
  match s with
  | EmptyString => Eps
  | String c rest => Cat (chr c) (lit rest)
  end.

Definition plus (r : Regex) : Regex := Cat r (Star r).

(** [\s]. *)
Definition space : Regex := Class JS.is_space.

(** [.]: any character but a line terminator. *)
Definition dot : Regex :=
  Class (fun c => negb ((nat_of_ascii c =? 10) || (nat_of_ascii c =? 13))).

Definition anything : Regex := Star (Class (fun _ => true)).

(** [re.test(s)] for a pattern without anchors: a match anywhere in [s]. *)
Definition found (r : Regex) (s : string) : bool :=
  matches (Cat anything (Cat r anything)) s.

(** [re.test(s)] for a pattern [r($|t)]: [r] anywhere in [s], followed by
    the end of [s] or by [t]. *)
Definition found_before_end_or (r t : Regex) (s : string) : bool :=
  matches (Cat anything (Cat r (Alt Eps (Cat t anything)))) s.

End Regex.

(* ================================================================== *)
(** * PolicyGate *)
(* ================================================================== *)

Module PolicyGate.

Import Regex.

(** Modelled from the spec: one entry of the rule table of the absent
    [lib/terminalExecutor.js], a pattern and its description. *)
Record Rule : Type := mkRule {
  test : string -> bool;
  description : string
}.

(** The rule table as the repository documents it (Security Architecture,
    Layer 2: [DANGEROUS_PATTERNS]). *)
Definition DANGEROUS_PATTERNS : list Rule :=
  [ mkRule (found_before_end_or
              (Cat (lit "rm") (Cat (plus space) (Cat (lit "-rf")
                 (Cat (plus space) (lit "/")))))
              space)
           "rm -rf /";
    mkRule (found (Cat (lit ":(){") (Cat (Star dot) (Cat (lit ":|:")
              (Cat (Star dot) (lit "}"))))))
           "Fork bombs";
    mkRule (found (lit "/dev/sda")) "Direct disk writes";
    mkRule (found (lit "mkfs")) "Format commands";
    mkRule (found (Cat (lit "curl") (Cat (Star dot) (Cat (lit "|")
              (Cat (Star dot) (lit "bash"))))))
           "Pipe to bash" ].

Inductive Classification : Type :=
| blocked
| requires_approval
| auto_approved.

Record PolicyVerdict : Type := mkPolicyVerdict {
  classification : Classification;
  matchedRule : option Rule;
  reason : string
}.

Section Classify.

(** The ordered rule table of destructive patterns. *)
Variable rules : list Rule.

(** Does the command mutate state, touch the network or escalate
    privilege? *)
Variable needs_approval : string -> bool.

(** Modelled from the spec: [classify] of the absent
    [lib/terminalExecutor.js].  Any match against the rule table gives
    [blocked], whatever the flags; otherwise a command that mutates state,
    touches the network or escalates privilege is [requires_approval] unless
    the caller has set the auto-approve flag, and a read-only command is
    [auto_approved]. *)
Definition classify (command : string) (options : ExecOptions) : PolicyVerdict :=
  match find (fun r => test r command) rules with
  | Some r =>
      {| classification := blocked;
         matchedRule := Some r;
         reason := description r |}
  | None =>
      if needs_approval command && negb (JS.truthy_flag (autoApprove options))
      then {| classification := requires_approval;
              matchedRule := None;
              reason := "requires approval" |}
      else {| classification := auto_approved;
              matchedRule := None;
              reason := "auto-approved" |}
  end.

End Classify.

End PolicyGate.

(* ================================================================== *)
(** * SecretVault *)
(* ================================================================== *)

Module SecretVault.

Fixpoint take (n : nat) (s : string) : string :=
  match n, s with
  | S k, String c r => String c (take k r)
  | _, _ => EmptyString
  end.

Fixpoint drop (n : nat) (s : string) : string :=
  match n, s with
  | S k, String _ r => drop k r
  | _, _ => s
  end.

(** Modelled from the spec: the kinds of secret that section 4.1 names, the
    credential contexts and the generic long hexadecimal run
    ([lib/secretRedactor.js] is absent). *)
Inductive SecretType : Type :=
| PASSWORD
| TOKEN
| KEY
| HEX.

Definition type_name (t : SecretType) : string :=
  match t with
  | PASSWORD => "PASSWORD"
  | TOKEN => "TOKEN"
  | KEY => "KEY"
  | HEX => "HEX"
  end.

Definition type_eqb (a b : SecretType) : bool :=
  match a, b with
  | PASSWORD, PASSWORD | TOKEN, TOKEN | KEY, KEY | HEX, HEX => true
  | _, _ => false
  end.

(** Modelled from the spec: a detector of [lib/secretRedactor.js].  It
    finds the leftmost secret of its kind in a text and reports its offset
    and length. *)
Record Detector : Type := mkDetector {
  dtype : SecretType;
  locate : string -> option (nat * nat)
}.

(** Modelled from the spec: the placeholder [{{TYPE_N}}] of
    [lib/secretRedactor.js]. *)
Record Placeholder : Type := mkPlaceholder {
  ptype : SecretType;
  pnum : nat
}.

Definition placeholder_text (p : Placeholder) : string :=
  "{{" ++ type_name (ptype p) ++ "_" ++ JS.string_of_nat (pnum p) ++ "}}".

(** Modelled from the spec: the SecretMapping of [lib/secretRedactor.js],
    placeholder-to-secret pairs in the order they were issued. *)
Definition SecretMapping : Type := list (Placeholder * string).

(** A text cut into literal text and detected secrets. *)
Inductive Piece : Type :=
| Lit (s : string)
| Sec (t : SecretType) (v : string).

(** Modelled from the spec: how [redact] applies one detector.  All its
    matches in a literal text, left to right. *)
Fixpoint split_by (d : Detector) (fuel : nat) (text : string) : list Piece :=
  match fuel with
  | O => [Lit text]
  | S fuel' =>
      match locate d text with
      | Some (off, len) =>
          match take len (drop off text) with
          | EmptyString => [Lit text]
          | v => Lit (take off text) :: Sec (dtype d) v
                   :: split_by d fuel' (drop len (drop off text))
          end
      | None => [Lit text]
      end
  end.

(** Modelled from the spec: the detectors of [redact] are applied in order,
    and a detector looks only at text that no earlier detector has claimed
    (no double matching). *)
Definition apply_detector (d : Detector) (ps : list Piece) : list Piece :=
  flat_map (fun p => match p with
                     | Lit s => split_by d (String.length s) s
                     | Sec _ _ => [p]
                     end) ps.

Definition detect (ds : list Detector) (text : string) : list Piece :=
  fold_left (fun ps d => apply_detector d ps) ds [Lit text].

(** Modelled from the spec: identical secret values collapse to one
    placeholder.  The placeholder already issued for a value, if any. *)
Definition issued_for (m : SecretMapping) (v : string) : option Placeholder :=
  option_map fst (find (fun e => String.eqb (snd e) v) m).

Definition count_type (m : SecretMapping) (t : SecretType) : nat :=
  length (filter (fun e => type_eqb (ptype (fst e)) t) m).

(** Modelled from the spec: the next placeholder of a type.  Numbers run
    from 1 within a type, as in the repository's own example, where the
    first password becomes [{{PASSWORD_1}}]. *)
Definition fresh (m : SecretMapping) (t : SecretType) : Placeholder :=
  {| ptype := t; pnum := S (count_type m t) |}.

(** Modelled from the spec: the replacement step of [redact].  Every secret
    is replaced by its placeholder, a new one of its type numbered after
    those already issued unless its value has one; literal text is
    copied. *)
Fixpoint render (ps : list Piece) (m : SecretMapping) : string * SecretMapping :=
  match ps with
  | [] => (EmptyString, m)
  | Lit s :: r =>
      let (txt, m') := render r m in (s ++ txt, m')
  | Sec t v :: r =>
      match issued_for m v with
      | Some p =>
          let (txt, m') := render r m in (placeholder_text p ++ txt, m')
      | None =>
          let p := fresh m t in
          let (txt, m') := render r (m ++ [(p, v)])%list in
          (placeholder_text p ++ txt, m')
      end
  end.

Record Redacted : Type := mkRedacted {
  safeText : string;
  mapping : SecretMapping
}.

Section Vault.

(** The ordered list of detectors. *)
Variable detectors : list Detector.

(** Modelled from the spec: [redact] of the absent [lib/secretRedactor.js].
    The detectors are applied in order, each match is replaced by a
    placeholder [{{TYPE_N}}], identical secret values share one placeholder
    and text that is not a secret is left as it is. *)
Definition redact (text : string) : Redacted :=
  let (txt, m) := render (detect detectors text) [] in
  {| safeText := txt; mapping := m |}.

End Vault.

(** Modelled from the spec: the known placeholder of [substitute].  The
    mapping entry whose placeholder starts the text, if any. *)
Definition known (m : SecretMapping) (s : string) : option (Placeholder * string) :=
  find (fun e => String.prefix (placeholder_text (fst e)) s) m.

(** Modelled from the spec: the pass of [substitute] over the text, left to
    right; [skip] characters of a placeholder that has just been replaced
    are still to be passed over. *)
Fixpoint restore (m : SecretMapping) (skip : nat) (s : string) : string :=
  match s with
  | EmptyString => EmptyString
  | String c r =>
      match skip with
      | S k => restore m k r
      | O =>
          match known m s with
          | Some (p, v) =>
              v ++ restore m (String.length (placeholder_text p) - 1) r
          | None => String c (restore m 0 r)
          end
      end
  end.

(** Modelled from the spec: [substitute] of the absent
    [lib/secretRedactor.js].  Every occurrence of a placeholder of the
    mapping is replaced by its secret; everything else, unknown placeholders
    included, is left as it is. *)
Definition substitute (text : string) (m : SecretMapping) : string :=
  restore m 0 text.

(** Text of the shape [{{NAME_123}}]. *)
Definition placeholder_shape : Regex.Regex :=
  let upper := Regex.Class (fun c => let n := nat_of_ascii c in
                                     ((65 <=? n) && (n <=? 90)) || (n =? 95)) in
  Regex.Cat (Regex.lit "{{")
    (Regex.Cat (Regex.plus upper)
       (Regex.Cat (Regex.plus (Regex.Class JS.is_digit))
          (Regex.Cat (Regex.lit "}}") Regex.anything))).

(** Modelled from the spec: the number of unresolved placeholders that
    [substitute] reports, the placeholder-shaped texts that the mapping does
    not know. *)
Fixpoint unresolved (m : SecretMapping) (s : string) : nat :=
  match s with
  | EmptyString => 0
  | String _ r =>
      (if Regex.matches placeholder_shape s
          && (match known m s with Some _ => false | None => true end)
       then 1 else 0) + unresolved m r
  end.

(** ** The documented detectors *)

Fixpoint span (p : ascii -> bool) (s : string) : nat :=
  match s with
  | String c r => if p c then S (span p r) else 0
  | EmptyString => 0
  end.

(** The value that follows the first occurrence of a keyword such as
    ["password:"]: optional white space, then everything up to the next
    white space. *)
Fixpoint locate_after (kw : string) (s : string) : option (nat * nat) :=
  let here :=
    if String.prefix kw s then
      let after := drop (String.length kw) s in
      let gap := span JS.is_space after in
      let len := span (fun c => negb (JS.is_space c)) (drop gap after) in
      if len =? 0 then None else Some (String.length kw + gap, len)
    else None in
  match here with
  | Some r => Some r
  | None =>
      match s with
      | String _ r =>
          match locate_after kw r with
          | Some (off, len) => Some (S off, len)
          | None => None
          end
      | EmptyString => None
      end
  end.

Definition is_hex (c : ascii) : bool :=
  let n := nat_of_ascii c in
  JS.is_digit c || ((97 <=? n) && (n <=? 102)) || ((65 <=? n) && (n <=? 70)).

(** The first run of at least 32 hexadecimal digits. *)
Fixpoint locate_hex (s : string) : option (nat * nat) :=
  match s with
  | EmptyString => None
  | String _ r =>
      let len := span is_hex s in
      if 32 <=? len then Some (0, len)
      else match locate_hex r with
           | Some (off, l) => Some (S off, l)
           | None => None
           end
  end.

(** Modelled from the spec: the ordered detectors of section 4.1,
    credential contexts first, the generic detector last. *)
Definition default_detectors : list Detector :=
  [ mkDetector PASSWORD (locate_after "password:");
    mkDetector TOKEN (locate_after "token:");
    mkDetector KEY (locate_after "key:");
    mkDetector HEX locate_hex ].

End SecretVault.

(* ================================================================== *)
(** * processUserRequest: the redaction and command phases *)
(* ================================================================== *)

Module Orchestrator.

Section Pipeline.

Context {C : Collaborators}.

(** The keys of [config] that these two phases read, after defaulting. *)
Record Config : Type := mkConfig {
  cfg_autoApprove : bool;
  cfg_dryRun : bool;
  cfg_timeout : Z;
  skipRedaction : bool;
  cfg_allowDangerous : bool
}.

(** The detectors of the [SecretRedactor] instance. *)
Variable detectors : list SecretVault.Detector.

(** Phase 1: [skipRedaction ? enhancedQuery : redactor.redact(enhancedQuery)].
    The redactor keeps the mapping for phase 5. *)
Definition redact_phase (cfg : Config) (enhancedQuery : string)
  : SecretVault.Redacted :=
  if skipRedaction cfg
  then {| SecretVault.safeText := enhancedQuery; SecretVault.mapping := [] |}
  else SecretVault.redact detectors enhancedQuery.

(** [skipRedaction ? aiResponse.terminalCommand
                   : redactor.substitute(aiResponse.terminalCommand)]. *)
Definition realCommand (cfg : Config) (m : SecretVault.SecretMapping)
    (aiResponse : Response) : option string :=
  if skipRedaction cfg then terminalCommand aiResponse
  else option_map (fun c => SecretVault.substitute c m)
                  (terminalCommand aiResponse).

(** The options with which phase 5 runs a command. *)
Definition command_options (cfg : Config) : ExecOptions :=
  {| autoApprove := Some (cfg_autoApprove cfg);
     dryRun := Some (cfg_dryRun cfg);
     timeout := Some (cfg_timeout cfg);
     allowDangerous := Some (cfg_allowDangerous cfg) |}.

(** Phase 5: the execution result, if the response is a terminal command. *)
Definition command_phase (cfg : Config) (m : SecretVault.SecretMapping)
    (aiResponse : Response) : M (option CommandResult) :=
  if String.eqb (choice aiResponse) "terminalCommand" then
    try_catch
      (bind (call_executeAgentCommand
               {| command := realCommand cfg m aiResponse;
                  cmd_commandReasoning := commandReasoning aiResponse;
                  cmd_requiresApproval := requiresApproval aiResponse |}
               (command_options cfg))
            (fun r => ret (Some r)))
      (fun e => ret (Some {| status := "error";
                             stdout := None;
                             stderr := None |}))
  else ret None.

End Pipeline.

End Orchestrator.

(* ================================================================== *)
(** * agentOrchestrator.js: orchestrateQuery and processUserRequest *)
(* ================================================================== *)

Module AgentOrchestrator.

(** The keys of [schemaMap]. *)
Inductive SchemaName : Type :=
| baseAgent
| summarizeAgent
| validatorAgent
| multiStepPlannerAgent
| followThroughAgent
| sshExplorerAgent.

Definition schema_names : list (string * SchemaName) :=
  [ ("baseAgent", baseAgent);
    ("summarizeAgent", summarizeAgent);
    ("validatorAgent", validatorAgent);
    ("multiStepPlannerAgent", multiStepPlannerAgent);
    ("followThroughAgent", followThroughAgent);
    ("sshExplorerAgent", sshExplorerAgent) ].

(** What [schemaMap[name]] evaluates to: the entry stored under one of the
    six keys, a value that the object inherits from its prototype (truthy,
    and without a [schema] property), or [undefined]. *)
Inductive Lookup : Type :=
| Entry (s : SchemaName)
| Inherited
| Undefined.

(** The answer under [routerAgentResponseSchema]; the schema requires the
    three strings. *)
Record RoutingDecision : Type := mkRoutingDecision {
  route_response : string;
  explanation : string;
  route_choice : string
}.

(** The answer under [lumenPersonalityAgentResponseSchema]; the schema
    requires every field. *)
Record PlatformContext : Type := mkPlatformContext {
  relevantSystems : list string;
  requiresExternalAccess : bool;
  safetyLevel : string
}.

Record TeamMemberContext : Type := mkTeamMemberContext {
  recognizedAs : string;
  workingOn : string;
  tone : string
}.

Record LumenPersonality : Type := mkLumenPersonality {
  userResponse : string;
  internalGuidance : string;
  conversationSummary : string;
  userIntent : string;
  urgency : string;
  platformContext : PlatformContext;
  teamMemberContext : TeamMemberContext;
  shouldProceed : bool;
  lumen_reasoning : string
}.

(** The answer of the selected agent: the fields of [Response], and
    [reasoning], which [processUserRequest] also reads. *)
Record AgentAnswer : Type := mkAgentAnswer {
  fields : Response;
  reasoning : option string
}.

(** [executionResult]: what [executeAgentCommand] returned, or the object
    built in the [catch] clause. *)
Inductive ExecutionResult : Type :=
| Ran (r : CommandResult)
| Crashed (message : string) (error : string).

Definition execution_status (r : ExecutionResult) : string :=
  match r with
  | Ran r => status r
  | Crashed _ _ => "error"
  end.

(** First argument of [executeAgentCommand]:
    [{ ...aiResponse, command, reasoning }]. *)
Record CommandRequest : Type := mkCommandRequest {
  request_answer : AgentAnswer;
  request_command : option string;
  request_reasoning : option string
}.

(** The two arguments of [memorySystem.addInteraction]. *)
Record InteractionData : Type := mkInteractionData {
  query : string;
  redacted : bool
}.

Record ResponseData : Type := mkResponseData {
  data_answer : AgentAnswer;
  data_executionResult : option ExecutionResult
}.

Section Contexts.

(** The type of [userContext] and of [config.additionalContext]. *)
Variable A : Type.

(** The [context] objects handed to [queryOpenAI].  A caller's object is
    spread last; [None] is the default [{}]. *)
Inductive RouterContext : Type :=
| RouteQuery (userContext : option A)
| RouteWithMemory (memory : string) (additionalContext : option A).

Inductive AgentContext : Type :=
| UserContext (userContext : option A)
| WithMemory (memory : string) (additionalContext : option A).

End Contexts.

Arguments RouteQuery {A} _.
Arguments RouteWithMemory {A} _ _.
Arguments UserContext {A} _.
Arguments WithMemory {A} _ _.

(** What [agentOrchestrator.js] imports.  [queryOpenAI] is one function; it
    appears once for each shape of answer that the schema passed to it
    requires.  The redactor is the [SecretRedactor] instance of the
    request. *)
Class Services : Type := {
  Outside : Type;
  ContextObject : Type;
  (** Is the name a property that every object inherits? *)
  inherited : string -> bool;
  queryOpenAI_personality :
    string -> string -> option ContextObject ->
    Outside -> Outcome LumenPersonality * Outside;
  queryOpenAI_router :
    string -> RouterContext ContextObject ->
    Outside -> Outcome RoutingDecision * Outside;
  queryOpenAI_agent :
    option SchemaName -> string -> AgentContext ContextObject ->
    Outside -> Outcome AgentAnswer * Outside;
  getMemoryContextString : Outside -> Outcome string * Outside;
  addInteraction :
    InteractionData -> ResponseData -> Outside -> Outcome unit * Outside;
  redactor_redact : string -> Outside -> Outcome string * Outside;
  redactor_substitute :
    option string -> Outside -> Outcome (option string) * Outside;
  executeAgentCommand :
    CommandRequest -> ExecOptions -> Outside -> Outcome CommandResult * Outside;
  (** [error.toString()]. *)
  Error_toString : JS.Error -> string
}.

Section Orchestration.

Context {S : Services}.

(** [schemaMap[name]]. *)
Definition schemaMap (name : string) : Lookup :=
  match find (fun e => String.eqb (fst e) name) schema_names with
  | Some (_, s) => Entry s
  | None => if inherited name then Inherited else Undefined
  end.

(** Every call that leaves the module, with its arguments and how it
    ended. *)
Inductive Call : Type :=
| AskedPersonality (query conversationHistory : string)
    (additionalContext : option ContextObject)
    (answer : Outcome LumenPersonality)
| AskedRouter (query : string) (context : RouterContext ContextObject)
    (answer : Outcome RoutingDecision)
| AskedAgent (schema : option SchemaName) (query : string)
    (context : AgentContext ContextObject) (answer : Outcome AgentAnswer)
| MemoryRead (result : Outcome string)
| MemorySaved (interaction : InteractionData) (data : ResponseData)
    (result : Outcome unit)
| Redacted (text : string) (result : Outcome string)
| Substituted (text : option string) (result : Outcome (option string))
| Executed (request : CommandRequest) (options : ExecOptions)
    (result : Outcome CommandResult).

Record Session : Type := mkSession {
  outside : Outside;
  calls : list Call
}.

Definition P (A : Type) : Type := Session -> Outcome A * Session.

Definition give {A : Type} (a : A) : P A := fun s => (Returned a, s).

Definition and_then {A B : Type} (m : P A) (k : A -> P B) : P B :=
  fun s =>
    match m s with
    | (Returned a, s') => k a s'
    | (Thrown e, s') => (Thrown e, s')
    end.

(** [try { body } catch (error) { handler }]. *)
Definition catching {A : Type} (body : P A) (handler : JS.Error -> P A) : P A :=
  fun s =>
    match body s with
    | (Returned a, s') => (Returned a, s')
    | (Thrown e, s') => handler e s'
    end.

(** A call to the outside, recorded with its result. *)
Definition call {A : Type} (f : Outside -> Outcome A * Outside)
    (record : Outcome A -> Call) : P A :=
  fun s =>
    let (r, w) := f (outside s) in
    (r, mkSession w (calls s ++ [record r])).

Notation "x <- m ;; k" := (and_then m (fun x => k))
  (at level 100, m at next level, right associativity).
Notation "m ;;; k" := (and_then m (fun _ => k))
  (at level 100, right associativity).

(** The calls that a computation makes when started in [s]. *)
Definition calls_of {A : Type} (m : P A) (s : Session) : list Call :=
  skipn (length (calls s)) (calls (snd (m s))).

(** ** orchestrateQuery *)

(** [_routingMetadata]. *)
Inductive RoutingMetadata : Type :=
| FallbackUsed (attemptedChoice routerExplanation : string)
| Selected (selectedSchema routerResponse routerExplanation : string).

(** [{ ...response, _routingMetadata }]. *)
Record Routed : Type := mkRouted {
  routed_answer : AgentAnswer;
  routingMetadata : RoutingMetadata
}.

Definition orchestrateQuery (query : string) (userContext : option ContextObject)
  : P Routed :=
  routingDecision <- call (queryOpenAI_router query (RouteQuery userContext))
                          (AskedRouter query (RouteQuery userContext)) ;;
  let selectedSchemaName := route_choice routingDecision in
  match schemaMap selectedSchemaName with
  | Undefined =>
      fallbackResponse <-
        call (queryOpenAI_agent (Some baseAgent) query (UserContext userContext))
             (AskedAgent (Some baseAgent) query (UserContext userContext)) ;;
      give {| routed_answer := fallbackResponse;
              routingMetadata :=
                FallbackUsed selectedSchemaName (explanation routingDecision) |}
  | selectedSchemaConfig =>
      let schema := match selectedSchemaConfig with
                    | Entry s => Some s
                    | _ => None
                    end in
      finalResponse <-
        call (queryOpenAI_agent schema query (UserContext userContext))
             (AskedAgent schema query (UserContext userContext)) ;;
      give {| routed_answer := finalResponse;
              routingMetadata :=
                Selected selectedSchemaName (route_response routingDecision)
                         (explanation routingDecision) |}
  end.

(** ** processUserRequest *)

(** The [config] object; a key that the caller does not write is [None]. *)
Record Config : Type := mkConfig {
  additionalContext : option ContextObject;
  cfg_autoApprove : option bool;
  cfg_dryRun : option bool;
  cfg_timeout : option Z;
  skipMemory : option bool;
  skipRedaction : option bool;
  skipPersonality : option bool;
  cfg_allowDangerous : option bool
}.

Definition flag (o : option bool) : bool :=
  match o with Some b => b | None => false end.

Definition get_timeout (c : Config) : Z :=
  match cfg_timeout c with Some t => t | None => 30000%Z end.

(** [_metadata]. *)
Record PersonalityLayer : Type := mkPersonalityLayer {
  handled : bool;
  directResponse : bool;
  intent : string;
  layer_urgency : string;
  teamMember : option string;
  layer_conversationSummary : option string
}.

Record RoutingInfo : Type := mkRoutingInfo {
  selectedSchema : string;
  routerResponse : string;
  routerExplanation : string
}.

Record Metadata : Type := mkMetadata {
  personalityLayer : option PersonalityLayer;
  routing : option RoutingInfo;
  secretsRedacted : bool;
  redactorUsed : bool;
  contextProvided : bool;
  interactionSaved : bool;
  commandExecuted : bool;
  executionStatus : option string
}.

(** The object that [processUserRequest] returns.  [answer] stands for the
    keys spread from [aiResponse] (none on the early return); the fields
    before it are the keys [response], [choice] and [reasoning] as they are
    after the spread. *)
Record Result : Type := mkResult {
  result_response : option string;
  result_choice : option string;
  result_reasoning : option string;
  answer : option AgentAnswer;
  result_executionResult : option ExecutionResult;
  lumenPersonality : option LumenPersonality;
  metadata : Metadata
}.

(** [await memorySystem.getMemoryContextString()] inside its [try], with
    [''] kept when the call throws or memory is skipped. *)
Definition load_memory (config : Config) : P string :=
  if negb (flag (skipMemory config))
  then catching (call getMemoryContextString MemoryRead) (fun _ => give "")
  else give "".

(** The early return of phase 0. *)
Definition handled_by_lumen (l : LumenPersonality) : Result :=
  {| result_response := Some (userResponse l);
     result_choice := Some "lumenPersonality";
     result_reasoning := Some (lumen_reasoning l);
     answer := None;
     result_executionResult := None;
     lumenPersonality := Some l;
     metadata :=
       {| personalityLayer :=
            Some {| handled := true; directResponse := true;
                    intent := userIntent l; layer_urgency := urgency l;
                    teamMember := None; layer_conversationSummary := None |};
          routing := None;
          secretsRedacted := false;
          redactorUsed := false;
          contextProvided := false;
          interactionSaved := false;
          commandExecuted := false;
          executionStatus := None |} |}.

(** Phase 5: [executionResult] after the action handling. *)
Definition action_handling (config : Config) (aiResponse : AgentAnswer)
  : P (option ExecutionResult) :=
  if String.eqb (choice (fields aiResponse)) "terminalCommand" then
    realCommand <-
      (if flag (skipRedaction config)
       then give (terminalCommand (fields aiResponse))
       else call (redactor_substitute (terminalCommand (fields aiResponse)))
                 (Substituted (terminalCommand (fields aiResponse)))) ;;
    let request :=
      {| request_answer := aiResponse;
         request_command := realCommand;
         request_reasoning :=
           JS.or_else (commandReasoning (fields aiResponse))
                      (reasoning aiResponse) |} in
    let options :=
      {| autoApprove := Some (flag (cfg_autoApprove config));
         dryRun := Some (flag (cfg_dryRun config));
         timeout := Some (get_timeout config);
         allowDangerous := Some (flag (cfg_allowDangerous config)) |} in
    catching
      (r <- call (executeAgentCommand request options)
                 (Executed request options) ;;
       give (Some (Ran r)))
      (fun e => give (Some (Crashed (JS.message e) (Error_toString e))))
  else give None.

(** Phase 6. *)
Definition memory_update (config : Config) (userQuery safeQuery : string)
    (aiResponse : AgentAnswer) (executionResult : option ExecutionResult)
  : P unit :=
  if negb (flag (skipMemory config)) then
    let interactionData :=
      {| query := userQuery;
         redacted := negb (String.eqb safeQuery userQuery) |} in
    let responseData :=
      {| data_answer := aiResponse;
         data_executionResult := executionResult |} in
    catching (call (addInteraction interactionData responseData)
                   (MemorySaved interactionData responseData))
             (fun _ => give tt)
  else give tt.

(** Phases 1 to 6 and the final response. *)
Definition agent_chain (userQuery : string) (config : Config)
    (lumenPersonality : option LumenPersonality) : P Result :=
  let enhancedQuery :=
    match lumenPersonality with
    | Some l => if JS.truthy (Some (internalGuidance l))
                then internalGuidance l else userQuery
    | None => userQuery
    end in
  let userResponse := option_map userResponse lumenPersonality in
  safeQuery <-
    (if flag (skipRedaction config) then give enhancedQuery
     else call (redactor_redact enhancedQuery) (Redacted enhancedQuery)) ;;
  memoryContext <- load_memory config ;;
  routingDecision <-
    call (queryOpenAI_router safeQuery
            (RouteWithMemory memoryContext (additionalContext config)))
         (AskedRouter safeQuery
            (RouteWithMemory memoryContext (additionalContext config))) ;;
  let selectedSchema :=
    match schemaMap (route_choice routingDecision) with
    | Entry s => s
    | _ => baseAgent
    end in
  aiResponse <-
    call (queryOpenAI_agent (Some selectedSchema) safeQuery
            (WithMemory memoryContext (additionalContext config)))
         (AskedAgent (Some selectedSchema) safeQuery
            (WithMemory memoryContext (additionalContext config))) ;;
  executionResult <- action_handling config aiResponse ;;
  memory_update config userQuery safeQuery aiResponse executionResult ;;;
  give
    {| result_response :=
         match response (fields aiResponse) with
         | Some r => Some r
         | None => if JS.truthy userResponse then userResponse else None
         end;
       result_choice := Some (choice (fields aiResponse));
       result_reasoning := reasoning aiResponse;
       answer := Some aiResponse;
       result_executionResult := executionResult;
       lumenPersonality := lumenPersonality;
       metadata :=
         {| personalityLayer :=
              option_map
                (fun l =>
                   {| handled := true; directResponse := false;
                      intent := userIntent l; layer_urgency := urgency l;
                      teamMember := Some (recognizedAs (teamMemberContext l));
                      layer_conversationSummary :=
                        Some (conversationSummary l) |})
                lumenPersonality;
            routing :=
              Some {| selectedSchema := route_choice routingDecision;
                      routerResponse := route_response routingDecision;
                      routerExplanation := explanation routingDecision |};
            secretsRedacted :=
              negb (flag (skipRedaction config))
              && negb (String.eqb safeQuery enhancedQuery);
            redactorUsed := negb (flag (skipRedaction config));
            contextProvided :=
              negb (flag (skipMemory config))
              && (0 <? String.length memoryContext);
            interactionSaved := negb (flag (skipMemory config));
            commandExecuted :=
              String.eqb (choice (fields aiResponse)) "terminalCommand";
            executionStatus := option_map execution_status executionResult |} |}.

Definition processUserRequest (userQuery : string) (config : Config) : P Result :=
  if negb (flag (skipPersonality config)) then
    memoryForPersonality <- load_memory config ;;
    lumenPersonality <-
      call (queryOpenAI_personality userQuery memoryForPersonality
              (additionalContext config))
           (AskedPersonality userQuery memoryForPersonality
              (additionalContext config)) ;;
    if negb (shouldProceed lumenPersonality)
    then give (handled_by_lumen lumenPersonality)
    else agent_chain userQuery config (Some lumenPersonality)
  else agent_chain userQuery config None.

(** ** telegram-bot.js: the request of the message handler *)

(** The [config] with which the message handler of the Telegram bot calls
    [processUserRequest]; [context] is its
    [{ platform: 'telegram', userId, username }]. *)
Definition telegram_config (context : ContextObject) : Config :=
  {| additionalContext := Some context;
     cfg_autoApprove := Some false;
     cfg_dryRun := Some true;
     cfg_timeout := None;
     skipMemory := Some false;
     skipRedaction := Some false;
     skipPersonality := None;
     cfg_allowDangerous := None |}.

End Orchestration.

End AgentOrchestrator.

(* ================================================================== *)
(** * Stand-ins for the collaborators *)
(* ================================================================== *)

(** Collaborators that replay a script: the world is the list of answers the
    Oracle still has to give and the list of results the command runner still
    has to give; a collaborator whose script has run out throws. *)
Definition scripted : Collaborators :=
  {| World := (list (Outcome Response) * list (Outcome CommandResult))%type;
     GlobalContext := unit;
     queryOpenAI := fun _ _ w =>
       match fst w with
       | [] => (Thrown (JS.mkError "oracle unavailable"), w)
       | r :: rs => (r, (rs, snd w))
       end;
     executeAgentCommand := fun _ _ w =>
       match snd w with
       | [] => (Thrown (JS.mkError "runner unavailable"), w)
       | r :: rs => (r, (fst w, rs))
       end;
     JSON_stringify := fun v =>
       match v with
       | RExec r => "{status:" ++ status r ++ "}"
       | RText s => s
       end;
     JSON_stringify_indented := fun r =>
       match error r with Some e => e | None => "{}" end;
     JSON_stringify_response := fun r => choice r |}.

(** The world in which the Oracle and the runner still hold these scripts,
    and nothing has happened yet. *)
Definition script (answers : list (Outcome Response))
    (results : list (Outcome CommandResult)) : @Env scripted :=
  @mkEnv scripted (answers, results) [].

(** [options = {}]. *)
Definition no_options {C : Collaborators} : Options :=
  {| maxIterations := None; maxConsecutiveFailures := None;
     temperature := None; opt_globalContext := None;
     onProgress := false; verify := false; verificationPrompt := None;
     opt_autoApprove := None; opt_dryRun := None; opt_timeout := None;
     opt_allowDangerous := None |}.

(** [options = { maxIterations, maxConsecutiveFailures, verify }]. *)
Definition options_with {C : Collaborators} (maxIt maxFail : option Z)
    (verifying : bool) : Options :=
  {| maxIterations := maxIt; maxConsecutiveFailures := maxFail;
     temperature := None; opt_globalContext := None;
     onProgress := false; verify := verifying; verificationPrompt := None;
     opt_autoApprove := None; opt_dryRun := None; opt_timeout := None;
     opt_allowDangerous := None |}.

Definition says (text : string) : Response :=
  {| choice := "response"; terminalCommand := None; commandReasoning := None;
     requiresApproval := None; code := None; response := Some text |}.

Definition runs (cmd : string) : Response :=
  {| choice := "terminalCommand"; terminalCommand := Some cmd;
     commandReasoning := None; requiresApproval := None;
     code := None; response := None |}.

Definition codes (c : option string) : Response :=
  {| choice := "code"; terminalCommand := None; commandReasoning := None;
     requiresApproval := None; code := c; response := None |}.

Definition succeeded : CommandResult :=
  {| status := "success"; stdout := Some "done"; stderr := None |}.

Definition failed : CommandResult :=
  {| status := "error"; stdout := None; stderr := Some "exit 1" |}.


(** Collaborators for an Oracle that answers every prompt with prose. *)
Definition obliging : Collaborators :=
  {| World := unit;
     GlobalContext := unit;
     queryOpenAI := fun _ _ w => (Returned (says "done"), w);
     executeAgentCommand := fun _ _ w => (Returned succeeded, w);
     JSON_stringify := fun _ => "{}";
     JSON_stringify_indented := fun _ => "{}";
     JSON_stringify_response := fun _ => "{}" |}.


(** The names that an object literal inherits from [Object.prototype]. *)
Definition object_prototype_names : list string :=
  [ "constructor"; "__defineGetter__"; "__defineSetter__"; "hasOwnProperty";
    "__lookupGetter__"; "__lookupSetter__"; "isPrototypeOf";
    "propertyIsEnumerable"; "toString"; "valueOf"; "__proto__";
    "toLocaleString" ].

(** Services that answer as staged: each kind of call has one outcome,
    whatever its arguments. *)
Definition staged (personality : Outcome AgentOrchestrator.LumenPersonality)
    (router : Outcome AgentOrchestrator.RoutingDecision)
    (agent : Outcome AgentOrchestrator.AgentAnswer)
    (memory : Outcome string) (saved : Outcome unit)
    (safe : Outcome string) (restored : Outcome (option string))
    (ran : Outcome CommandResult) : AgentOrchestrator.Services :=
  {| AgentOrchestrator.Outside := unit;
     AgentOrchestrator.ContextObject := unit;
     AgentOrchestrator.inherited :=
       fun name => existsb (String.eqb name) object_prototype_names;
     AgentOrchestrator.queryOpenAI_personality := fun _ _ _ w => (personality, w);
     AgentOrchestrator.queryOpenAI_router := fun _ _ w => (router, w);
     AgentOrchestrator.queryOpenAI_agent := fun _ _ _ w => (agent, w);
     AgentOrchestrator.getMemoryContextString := fun w => (memory, w);
     AgentOrchestrator.addInteraction := fun _ _ w => (saved, w);
     AgentOrchestrator.redactor_redact := fun _ w => (safe, w);
     AgentOrchestrator.redactor_substitute := fun _ w => (restored, w);
     AgentOrchestrator.executeAgentCommand := fun _ _ w => (ran, w);
     AgentOrchestrator.Error_toString := fun e => "Error: " ++ JS.message e |}.

(** A personality answer with this guidance for the agents. *)
Definition lumen (guidance : string) (proceed : bool)
  : AgentOrchestrator.LumenPersonality :=
  {| AgentOrchestrator.userResponse := "On it.";
     AgentOrchestrator.internalGuidance := guidance;
     AgentOrchestrator.conversationSummary := "";
     AgentOrchestrator.userIntent := "task";
     AgentOrchestrator.urgency := "normal";
     AgentOrchestrator.platformContext :=
       {| AgentOrchestrator.relevantSystems := [];
          AgentOrchestrator.requiresExternalAccess := false;
          AgentOrchestrator.safetyLevel := "safe" |};
     AgentOrchestrator.teamMemberContext :=
       {| AgentOrchestrator.recognizedAs := "unknown";
          AgentOrchestrator.workingOn := "";
          AgentOrchestrator.tone := "professional" |};
     AgentOrchestrator.shouldProceed := proceed;
     AgentOrchestrator.lumen_reasoning := "" |}.

Definition routes_to (name : string) : AgentOrchestrator.RoutingDecision :=
  {| AgentOrchestrator.route_response := "";
     AgentOrchestrator.explanation := "";
     AgentOrchestrator.route_choice := name |}.

Definition answers (r : Response) : AgentOrchestrator.AgentAnswer :=
  {| AgentOrchestrator.fields := r; AgentOrchestrator.reasoning := None |}.

(** [config = {}]. *)
Definition no_config (S : AgentOrchestrator.Services) : AgentOrchestrator.Config :=
  {| AgentOrchestrator.additionalContext := None;
     AgentOrchestrator.cfg_autoApprove := None;
     AgentOrchestrator.cfg_dryRun := None;
     AgentOrchestrator.cfg_timeout := None;
     AgentOrchestrator.skipMemory := None;
     AgentOrchestrator.skipRedaction := None;
     AgentOrchestrator.skipPersonality := None;
     AgentOrchestrator.cfg_allowDangerous := None |}.

(** A session in which nothing has been called yet. *)
Definition fresh_session (S : AgentOrchestrator.Services)
    (w : AgentOrchestrator.Outside) : AgentOrchestrator.Session :=
  AgentOrchestrator.mkSession w [].

(** A build that fails once, is given a recovery plan and then passes. *)
Definition build_twice : @Env scripted :=
  script [Returned (runs "make"); Returned (says "run it again");
          Returned (says "built")]
         [Returned failed].

(** Lumen answers the greeting itself. *)
Definition greeting : AgentOrchestrator.Services :=
  staged (Returned (lumen "" false)) (Returned (routes_to "baseAgent"))
         (Returned (answers (says "hello"))) (Returned "") (Returned tt)
         (Returned "hello") (Returned None) (Returned succeeded).

(** A login whose password is in the request, with the memory system down
    and the command runner crashing. *)
Definition login : AgentOrchestrator.Services :=
  staged (Returned (lumen "Log in with password: hunter2" true))
         (Returned (routes_to "toString"))
         (Returned (answers (runs "login --password {{PASSWORD_1}}")))
         (Thrown (JS.mkError "memory unavailable"))
         (Thrown (JS.mkError "disk full"))
         (Returned "Log in with password: {{PASSWORD_1}}")
         (Returned (Some "login --password hunter2"))
         (Thrown (JS.mkError "spawn ENOMEM")).

(** The same request when the router cannot be reached. *)
Definition unrouted : AgentOrchestrator.Services :=
  staged (Returned (lumen "Log in with password: hunter2" true))
         (Thrown (JS.mkError "rate limited"))
         (Returned (answers (says "hello"))) (Returned "") (Returned tt)
         (Returned "Log in with password: {{PASSWORD_1}}") (Returned None)
         (Returned succeeded).

(* ================================================================== *)
(** * Facts about strings *)
(* ================================================================== *)

Lemma append_assoc (a b c : string) : ((a ++ b) ++ c = a ++ (b ++ c))%string.
Proof. induction a as [ | x a IH]; simpl; [ reflexivity | now rewrite IH ]. Qed.


Lemma append_length (a b : string) :
  String.length (a ++ b) = String.length a + String.length b.
Proof. induction a as [ | x a IH]; simpl; [ reflexivity | now rewrite IH ]. Qed.

Lemma prefix_append (a b : string) : String.prefix a (a ++ b) = true.
Proof.
  induction a as [ | x a IH]; simpl.
  - destruct b; reflexivity.
  - destruct (ascii_dec x x) as [_ | N]; [ exact IH | contradiction ].
Qed.

(** The last two items of a joined list appear in the result as they are. *)
Lemma concat_last_two (sep : string) (pre : list string) (x y : string) :
  exists p, (String.concat sep (pre ++ [x; y]) = p ++ x ++ sep ++ y)%string.
Proof.
  induction pre as [ | a pre (p & IH)].
  - exists "". reflexivity.
  - exists (a ++ sep ++ p)%string.
    change ((a :: pre) ++ [x; y])%list with (a :: (pre ++ [x; y]))%list.
    destruct (pre ++ [x; y])%list as [ | b rest] eqn:E.
    + destruct pre; discriminate.
    + cbn [String.concat]. cbn [String.concat] in IH.
      rewrite IH, !append_assoc. reflexivity.
Qed.

(* ================================================================== *)
(** * Properties of the loop *)
(* ================================================================== *)

Section LoopProperties.

Context {C : Collaborators}.

Local Open Scope list_scope.

(** ** The three Oracle-facing helpers never throw *)

Lemma executeStep_returns (step : string) (ctx : ExecutionContext) (t : Q) (env : Env) :
  exists r env', executeStep step ctx t env = (Returned r, env').
Proof.
  unfold executeStep, try_catch, bind, call_queryOpenAI,
    call_executeAgentCommand, ret.
  destruct (queryOpenAI _ _ (world env)) as [[resp | e] w]; [ | eauto ].
  destruct (String.eqb (choice resp) "terminalCommand").
  - cbn [world trace].
    destruct (executeAgentCommand _ _ w) as [[r | e] w']; eauto.
  - destruct (String.eqb (choice resp) "code"); [ eauto | ].
    destruct (String.eqb (choice resp) "response"); eauto.
Qed.

Lemma createRecoverySolution_returns (step : string) (info : StepOutcome)
    (ctx : ExecutionContext) (env : Env) :
  exists r env', createRecoverySolution step info ctx env = (Returned r, env').
Proof.
  unfold createRecoverySolution, try_catch, bind, call_queryOpenAI, ret.
  destruct (queryOpenAI _ _ (world env)) as [[resp | e] w]; eauto.
Qed.

(** What [reassessPlan] can return: a plan that is empty only if the tail it
    was given was empty, or the tail itself after a failed Oracle call. *)
Lemma reassessPlan_cases (steps : list string) (ctx : ExecutionContext) (env : Env) :
  (exists resp w,
      queryOpenAI (reassess_prompt steps ctx)
        {| q_temperature := 0.8; q_context := globalContext ctx |}
        (world env) = (Returned resp, w)
      /\ exists reasoning env',
          reassessPlan steps ctx env
          = (Returned (Reassessed
                         (match extract_revised_steps resp with
                          | [] => steps
                          | _ => extract_revised_steps resp
                          end) reasoning resp), env')
          /\ world env' = w)
  \/ (exists e w,
      queryOpenAI (reassess_prompt steps ctx)
        {| q_temperature := 0.8; q_context := globalContext ctx |}
        (world env) = (Thrown e, w)
      /\ exists env',
          reassessPlan steps ctx env
          = (Returned (ReassessmentFailed (JS.message e) steps), env')
          /\ world env' = w).
Proof.
  unfold reassessPlan, try_catch, bind, call_queryOpenAI, ret.
  destruct (queryOpenAI _ _ (world env)) as [[resp | e] w].
  - left. exists resp, w. split; [ reflexivity | ].
    do 2 eexists. split; [ reflexivity | reflexivity ].
  - right. exists e, w. split; [ reflexivity | ].
    eexists. split; reflexivity.
Qed.

Lemma revised_nonempty (steps : list string) (resp : Response) :
  steps <> [] ->
  match extract_revised_steps resp with
  | [] => steps
  | _ => extract_revised_steps resp
  end <> [].
Proof.
  intros H. destruct (extract_revised_steps resp); [ exact H | discriminate ].
Qed.

Lemma report_returns (o : Options) (p : Progress) (env : Env) :
  exists env', report o p env = (Returned tt, env') /\ world env' = world env.
Proof.
  unfold report, emit, ret. destruct (onProgress o); eexists; split; reflexivity.
Qed.

(** ** One iteration as a transition between loop states *)

Definition step_at (st : LoopState) : string :=
  nth (currentStepIndex st) (currentSteps st) "".

Definition failure_at (st : LoopState) (f : Failure) : Prop :=
  f_step f = step_at st /\ f_iteration f = S (iteration st).

Inductive Transition (o : Options) (st : LoopState) : LoopState -> Prop :=
| Advance (r : option ResultValue) :
    Transition o st
      {| context := push_completed (context st)
                      {| cs_step := step_at st;
                         cs_iteration := S (iteration st);
                         cs_status := "success";
                         cs_result := r |};
         currentSteps := currentSteps st;
         currentStepIndex := S (currentStepIndex st);
         iteration := S (iteration st);
         consecutiveFailures := 0 |}
| Reassess (f : Failure) (revised : list string) :
    failure_at st f ->
    (get_maxConsecutiveFailures o <= Z.of_nat (S (consecutiveFailures st)))%Z ->
    (skipn (currentStepIndex st) (currentSteps st) <> [] -> revised <> []) ->
    Transition o st
      {| context := incr_reassessments (push_failure (context st) f);
         currentSteps := firstn (currentStepIndex st) (currentSteps st)
                         ++ revised;
         currentStepIndex := currentStepIndex st;
         iteration := S (iteration st);
         consecutiveFailures := 0 |}
| ReassessFails (f : Failure) :
    failure_at st f ->
    (get_maxConsecutiveFailures o <= Z.of_nat (S (consecutiveFailures st)))%Z ->
    Transition o st
      {| context := push_failure (context st) f;
         currentSteps := currentSteps st;
         currentStepIndex := currentStepIndex st;
         iteration := S (iteration st);
         consecutiveFailures := S (consecutiveFailures st) |}
| Retry (f : Failure) (ctx' : ExecutionContext) (cf' : nat) :
    failure_at st f ->
    (Z.of_nat (S (consecutiveFailures st)) < get_maxConsecutiveFailures o)%Z ->
    ctx' = push_failure (context st) f
    \/ (exists a, ctx' = push_recovery (push_failure (context st) f) a) ->
    cf' = 0 \/ cf' = S (consecutiveFailures st) ->
    Transition o st
      {| context := ctx';
         currentSteps := currentSteps st;
         currentStepIndex := currentStepIndex st;
         iteration := S (iteration st);
         consecutiveFailures := cf' |}.

Lemma reassess_branch_transition (o : Options) (st : LoopState) (f : Failure)
    (env : Env) (st' : LoopState) (env' : Env) :
  failure_at st f ->
  (get_maxConsecutiveFailures o <= Z.of_nat (S (consecutiveFailures st)))%Z ->
  reassess_branch o (push_failure (context st) f) (currentSteps st)
    (currentStepIndex st) (S (iteration st)) (S (consecutiveFailures st)) env
  = (Returned st', env') ->
  Transition o st st'.
Proof.
  intros Hf Hmax. unfold reassess_branch, bind.
  destruct (reassessPlan_cases (skipn (currentStepIndex st) (currentSteps st))
              (push_failure (context st) f) env)
    as [(resp & w & _ & rs & env1 & -> & _) | (e & w & _ & env1 & -> & _)].
  - destruct (report_returns o
                (ProgressReassessment (S (iteration st))
                   (length (firstn (currentStepIndex st) (currentSteps st)
                            ++ match extract_revised_steps resp with
                               | [] => skipn (currentStepIndex st) (currentSteps st)
                               | _ => extract_revised_steps resp
                               end)
                    - currentStepIndex st)) env1) as (env2 & -> & _).
    unfold ret. intros H. injection H as <- <-.
    apply Reassess; auto using revised_nonempty.
  - unfold ret. intros H. injection H as <- <-.
    apply ReassessFails; auto.
Qed.

Lemma recovery_branch_transition (o : Options) (st : LoopState) (f : Failure)
    (result : StepOutcome) (env : Env) (st' : LoopState) (env' : Env) :
  failure_at st f ->
  (Z.of_nat (S (consecutiveFailures st)) < get_maxConsecutiveFailures o)%Z ->
  recovery_branch o (push_failure (context st) f) (currentSteps st)
    (currentStepIndex st) (S (iteration st)) (S (consecutiveFailures st))
    (step_at st) result env
  = (Returned st', env') ->
  Transition o st st'.
Proof.
  intros Hf Hmax. unfold recovery_branch, bind.
  destruct (createRecoverySolution_returns (step_at st) result
              (push_failure (context st) f) env) as (rec & env1 & ->).
  destruct rec as [solution action | err].
  - destruct (String.eqb (choice action) "terminalCommand").
    + unfold call_executeAgentCommand.
      destruct (executeAgentCommand _ _ (world env1)) as [[rr | e] w];
        [ | discriminate ].
      unfold ret at 1.
      match goal with
      | |- context [report o ?p ?e] =>
          destruct (report_returns o p e) as (env2 & -> & _)
      end.
      unfold ret. intros H. injection H as <- <-.
      apply (Retry o st f); eauto.
      destruct (String.eqb (status rr) "success"); auto.
    + unfold ret at 1.
      match goal with
      | |- context [report o ?p ?e] =>
          destruct (report_returns o p e) as (env2 & -> & _)
      end.
      unfold ret. intros H. injection H as <- <-.
      apply (Retry o st f); eauto.
  - unfold ret. intros H. injection H as <- <-.
    apply (Retry o st f); auto.
Qed.

Lemma loop_body_transition (o : Options) (st : LoopState) (env : Env)
    (st' : LoopState) (env' : Env) :
  loop_body o st env = (Returned st', env') -> Transition o st st'.
Proof.
  unfold loop_body, bind. fold (step_at st).
  destruct (executeStep_returns (step_at st) (context st) (get_temperature o) env)
    as (result & env1 & ->).
  destruct (JS.truthy_flag (success result)).
  - match goal with
    | |- context [report o ?p ?e] =>
        destruct (report_returns o p e) as (env2 & -> & _)
    end.
    unfold ret. intros H. injection H as <- <-. apply Advance.
  - match goal with
    | |- context [report o ?p ?e] =>
        destruct (report_returns o p e) as (env2 & -> & _)
    end.
    set (f := {| f_step := step_at st; f_iteration := S (iteration st);
                 f_error := outcome_error result;
                 f_details := errorDetails result |}).
    assert (Hf : failure_at st f) by (split; reflexivity).
    destruct (Z.leb_spec (get_maxConsecutiveFailures o)
                (Z.of_nat (S (consecutiveFailures st)))) as [Hmax | Hmax].
    + apply reassess_branch_transition; assumption.
    + apply recovery_branch_transition; assumption.
Qed.

Lemma transition_iteration (o : Options) (st st' : LoopState) :
  Transition o st st' -> iteration st' = S (iteration st).
Proof. intros H; destruct H; reflexivity. Qed.

(** ** The executed prefix of the plan *)

(** The completed steps are exactly the plan up to the cursor, each recorded
    with status ["success"]. *)
Definition executed_prefix (st : LoopState) : Prop :=
  map cs_step (completedSteps (context st))
  = firstn (currentStepIndex st) (currentSteps st)
  /\ currentStepIndex st <= length (currentSteps st)
  /\ Forall (fun c => cs_status c = "success") (completedSteps (context st)).

Lemma firstn_snoc_nth {A : Type} (d : A) (l : list A) (n : nat) :
  n < length l -> firstn (S n) l = firstn n l ++ [nth n l d].
Proof.
  revert n. induction l as [ | x l IH]; intros n Hn; simpl in Hn.
  - lia.
  - destruct n as [ | n]; [ reflexivity | ].
    change (firstn (S (S n)) (x :: l)) with (x :: firstn (S n) l).
    rewrite (IH n) by lia. reflexivity.
Qed.

Lemma firstn_prefix_app {A : Type} (l r : list A) (n : nat) :
  n <= length l -> firstn n (firstn n l ++ r) = firstn n l.
Proof.
  intros Hn. rewrite firstn_app, firstn_firstn, Nat.min_id.
  rewrite firstn_length_le by exact Hn.
  rewrite Nat.sub_diag. simpl. apply app_nil_r.
Qed.

Lemma executed_prefix_length (st : LoopState) :
  executed_prefix st ->
  length (completedSteps (context st)) = currentStepIndex st.
Proof.
  intros (Hmap & Hle & _).
  rewrite <- (length_map cs_step), Hmap. apply firstn_length_le, Hle.
Qed.

Lemma initial_state_prefix (steps : list string) (o : Options) :
  executed_prefix (initial_state steps o).
Proof.
  unfold executed_prefix; simpl. repeat split; [ lia | constructor ].
Qed.

Lemma loop_guard_true (o : Options) (st : LoopState) :
  loop_guard o st = true ->
  currentStepIndex st < length (currentSteps st)
  /\ (Z.of_nat (iteration st) < get_maxIterations o)%Z.
Proof.
  unfold loop_guard. intros H. apply andb_prop in H as [H1 H2].
  apply Nat.ltb_lt in H1. apply Z.ltb_lt in H2. split; assumption.
Qed.

Lemma loop_guard_false (o : Options) (st : LoopState) :
  loop_guard o st = false ->
  length (currentSteps st) <= currentStepIndex st
  \/ (get_maxIterations o <= Z.of_nat (iteration st))%Z.
Proof.
  unfold loop_guard. intros H. apply andb_false_iff in H as [H | H].
  - left. apply Nat.ltb_ge in H. exact H.
  - right. apply Z.ltb_ge in H. exact H.
Qed.

Lemma transition_preserves_prefix (o : Options) (st st' : LoopState) :
  currentStepIndex st < length (currentSteps st) ->
  executed_prefix st -> Transition o st st' -> executed_prefix st'.
Proof.
  intros Hlt (Hmap & Hle & Hok) T.
  destruct T as [r | f revised Hf Hmax Hne | f Hf Hmax | f ctx' cf' Hf Hmax Hctx Hcf];
    unfold executed_prefix; cbn [context currentSteps currentStepIndex].
  - cbn [push_completed completedSteps].
    rewrite map_app, Hmap. cbn [map cs_step].
    unfold step_at. rewrite <- firstn_snoc_nth by exact Hlt.
    repeat split; [ lia | ].
    apply Forall_app; split; [ exact Hok | repeat constructor ].
  - cbn [incr_reassessments push_failure completedSteps].
    rewrite firstn_prefix_app by exact Hle.
    repeat split; [ exact Hmap | | exact Hok ].
    rewrite length_app, firstn_length_le by exact Hle. lia.
  - cbn [push_failure completedSteps]. repeat split; assumption.
  - destruct Hctx as [-> | (a & ->)];
      cbn [push_recovery push_failure completedSteps];
      repeat split; assumption.
Qed.

(** ** What an iteration leaves alone *)

(** From [st] to [st'] the two histories have only grown at their ends, the
    cursor has not moved back, the plan up to the old cursor is what it was
    and every completed step of [st] is still recorded, unchanged. *)
Definition history_kept (st st' : LoopState) : Prop :=
  (exists more, completedSteps (context st')
                = completedSteps (context st) ++ more)
  /\ (exists more, failures (context st') = failures (context st) ++ more)
  /\ currentStepIndex st <= currentStepIndex st'
  /\ firstn (currentStepIndex st) (currentSteps st')
     = firstn (currentStepIndex st) (currentSteps st)
  /\ reassessments (context st) <= reassessments (context st').

Lemma history_kept_refl (st : LoopState) : history_kept st st.
Proof.
  unfold history_kept. repeat split; try (exists []; symmetry; apply app_nil_r); lia.
Qed.

Lemma history_kept_trans (a b c : LoopState) :
  history_kept a b -> history_kept b c -> history_kept a c.
Proof.
  intros ((m1 & H1) & (n1 & H2) & H3 & H4 & H5)
         ((m2 & K1) & (n2 & K2) & K3 & K4 & K5).
  unfold history_kept. repeat split.
  - exists (m1 ++ m2). rewrite K1, H1. symmetry; apply app_assoc.
  - exists (n1 ++ n2). rewrite K2, H2. symmetry; apply app_assoc.
  - lia.
  - rewrite <- H4.
    replace (currentStepIndex a)
      with (Nat.min (currentStepIndex a) (currentStepIndex b)) by lia.
    rewrite <- !firstn_firstn. rewrite K4. reflexivity.
  - lia.
Qed.

Lemma transition_keeps_history (o : Options) (st st' : LoopState) :
  currentStepIndex st <= length (currentSteps st) ->
  Transition o st st' -> history_kept st st'.
Proof.
  intros Hle T.
  destruct T as [r | f revised Hf Hmax Hne | f Hf Hmax | f ctx' cf' Hf Hmax Hctx Hcf];
    unfold history_kept; cbn [context currentSteps currentStepIndex].
  - cbn [push_completed completedSteps failures reassessments].
    repeat split; eauto; try lia.
    exists []. symmetry; apply app_nil_r.
  - cbn [incr_reassessments push_failure completedSteps failures reassessments].
    repeat split; eauto; try lia.
    + exists []. symmetry; apply app_nil_r.
    + apply firstn_prefix_app, Hle.
  - cbn [push_failure completedSteps failures reassessments].
    repeat split; eauto; try lia.
    exists []. symmetry; apply app_nil_r.
  - destruct Hctx as [-> | (a & ->)];
      cbn [push_recovery push_failure completedSteps failures reassessments];
      repeat split; eauto; try lia;
      exists []; symmetry; apply app_nil_r.
Qed.


(** ** Runs of the loop *)

Inductive Run (o : Options) : LoopState -> LoopState -> Prop :=
| Run_done (st : LoopState) : Run o st st
| Run_more (st st1 st2 : LoopState) :
    loop_guard o st = true ->
    Transition o st st1 ->
    Run o st1 st2 ->
    Run o st st2.

Lemma run_loop_run (o : Options) (fuel : nat) :
  forall (st : LoopState) (env : Env) (st' : LoopState) (env' : Env),
    run_loop o fuel st env = (Returned (Some st'), env') ->
    Run o st st' /\ loop_guard o st' = false.
Proof.
  induction fuel as [ | fuel IH]; intros st env st' env'; simpl;
    destruct (loop_guard o st) eqn:G.
  - unfold ret. discriminate.
  - unfold ret. intros H. injection H as <- <-. split; [ constructor | exact G ].
  - unfold bind.
    destruct (loop_body o st env) as [[st1 | e] env1] eqn:B; [ | discriminate ].
    intros H. apply IH in H as [R G'].
    split; [ | exact G' ].
    eapply Run_more; eauto using loop_body_transition.
  - unfold ret. intros H. injection H as <- <-. split; [ constructor | exact G ].
Qed.

Lemma run_keeps (o : Options) (st st' : LoopState) :
  Run o st st' -> executed_prefix st ->
  executed_prefix st' /\ history_kept st st'.
Proof.
  induction 1 as [st | st st1 st2 G T R IH]; intros Inv.
  - split; [ exact Inv | apply history_kept_refl ].
  - apply loop_guard_true in G as [Hlt _].
    assert (Inv1 : executed_prefix st1)
      by (eapply transition_preserves_prefix; eauto).
    destruct (IH Inv1) as [Inv2 K].
    split; [ exact Inv2 | ].
    eapply history_kept_trans; [ | exact K ].
    eapply transition_keeps_history; [ | exact T ]. lia.
Qed.

Lemma run_iterations (o : Options) (st st' : LoopState) :
  Run o st st' ->
  (Z.of_nat (iteration st')
   <= Z.max (Z.of_nat (iteration st)) (get_maxIterations o))%Z
  /\ iteration st <= iteration st'.
Proof.
  induction 1 as [st | st st1 st2 G T R IH].
  - split; lia.
  - apply loop_guard_true in G as [_ Hit].
    apply transition_iteration in T. rewrite T in IH. lia.
Qed.

(** ** Fuel *)

Lemma run_loop_enough (o : Options) (fuel : nat) :
  forall (st : LoopState) (env : Env),
    Z.to_nat (get_maxIterations o - Z.of_nat (iteration st)) <= fuel ->
    fst (run_loop o fuel st env) <> Returned None.
Proof.
  induction fuel as [ | fuel IH]; intros st env Hfuel; simpl;
    destruct (loop_guard o st) eqn:G; try (unfold ret; simpl; discriminate).
  - apply loop_guard_true in G as [_ Hit]. lia.
  - unfold bind.
    destruct (loop_body o st env) as [[st1 | e] env1] eqn:B;
      [ | simpl; discriminate ].
    apply IH.
    apply loop_body_transition, transition_iteration in B. rewrite B.
    apply loop_guard_true in G as [_ Hit]. lia.
Qed.


(** ** What the loop says to its collaborators *)

(** The shape of every trace the loop adds: progress notes, Oracle calls, and
    commands; a command comes only directly after the Oracle answer that
    proposed it, carries that answer's [terminalCommand] as it is, and is
    run with one of the two fixed option records. *)
Inductive Protocol : list Event -> Prop :=
| Protocol_nil : Protocol []
| Protocol_progress (p : Progress) (l : list Event) :
    Protocol l -> Protocol (EvProgress p :: l)
| Protocol_query (prompt : string) (qopts : QueryOptions GlobalContext)
    (answer : Outcome Response) (l : list Event) :
    Protocol l -> Protocol (EvQuery prompt qopts answer :: l)
| Protocol_command (prompt : string) (qopts : QueryOptions GlobalContext)
    (resp : Response) (cmd : AgentCommand) (opts : ExecOptions)
    (result : Outcome CommandResult) (l : list Event) :
    choice resp = "terminalCommand" ->
    command cmd = terminalCommand resp ->
    opts = step_exec_options \/ opts = recovery_exec_options ->
    Protocol l ->
    Protocol (EvQuery prompt qopts (Returned resp) :: EvExec cmd opts result :: l).

Lemma Protocol_app (l1 l2 : list Event) :
  Protocol l1 -> Protocol l2 -> Protocol (l1 ++ l2).
Proof.
  intros P1 P2. induction P1; simpl.
  - exact P2.
  - apply Protocol_progress; assumption.
  - apply Protocol_query; assumption.
  - apply Protocol_command; assumption.
Qed.

(** A computation that only ever adds a [Protocol] trace. *)
Definition follows_protocol {A : Type} (m : M A) : Prop :=
  forall env, exists l, trace (snd (m env)) = trace env ++ l /\ Protocol l.

Lemma ret_follows {A : Type} (a : A) : follows_protocol (ret a).
Proof.
  intros env. exists []. split; [ symmetry; apply app_nil_r | constructor ].
Qed.

Lemma throw_follows {A : Type} (e : JS.Error) : follows_protocol (@throw _ A e).
Proof.
  intros env. exists []. split; [ symmetry; apply app_nil_r | constructor ].
Qed.

Lemma bind_follows {A B : Type} (m : M A) (k : A -> M B) :
  follows_protocol m -> (forall a, follows_protocol (k a)) ->
  follows_protocol (bind m k).
Proof.
  intros Hm Hk env. unfold bind.
  destruct (Hm env) as (l1 & E1 & P1).
  destruct (m env) as [[a | e] env1]; simpl in E1.
  - destruct (Hk a env1) as (l2 & E2 & P2).
    exists (l1 ++ l2). split; [ | apply Protocol_app; assumption ].
    rewrite E2, E1. symmetry; apply app_assoc.
  - exists l1. split; assumption.
Qed.

Lemma try_catch_follows {A : Type} (body : M A) (handler : JS.Error -> M A) :
  follows_protocol body -> (forall e, follows_protocol (handler e)) ->
  follows_protocol (try_catch body handler).
Proof.
  intros Hb Hh env. unfold try_catch.
  destruct (Hb env) as (l1 & E1 & P1).
  destruct (body env) as [[a | e] env1]; simpl in E1.
  - exists l1. split; assumption.
  - destruct (Hh e env1) as (l2 & E2 & P2).
    exists (l1 ++ l2). split; [ | apply Protocol_app; assumption ].
    rewrite E2, E1. symmetry; apply app_assoc.
Qed.

Lemma report_follows (o : Options) (p : Progress) :
  follows_protocol (report o p).
Proof.
  unfold report. destruct (onProgress o); [ | apply ret_follows ].
  intros env. exists [EvProgress p]. split; [ reflexivity | repeat constructor ].
Qed.

Lemma query_follows (prompt : string) (qopts : QueryOptions GlobalContext) :
  follows_protocol (call_queryOpenAI prompt qopts).
Proof.
  intros env. unfold call_queryOpenAI.
  destruct (queryOpenAI prompt qopts (world env)) as [r w].
  exists [EvQuery prompt qopts r]. split; [ reflexivity | repeat constructor ].
Qed.

Lemma extends_by_one {A : Type} (x t l : list A) (a : A) :
  x = (t ++ [a]) ++ l -> x = t ++ a :: l.
Proof. intros ->. rewrite <- app_assoc. reflexivity. Qed.

Lemma extends_by_two {A : Type} (x t l : list A) (a b : A) :
  x = ((t ++ [a]) ++ [b]) ++ l -> x = t ++ a :: b :: l.
Proof. intros ->. rewrite <- !app_assoc. reflexivity. Qed.

Ltac one_more :=
  eexists; split;
  [ apply extends_by_one; symmetry; apply app_nil_r
  | repeat constructor ].

Ltac command_after resp :=
  eexists; split;
  [ apply extends_by_two; symmetry; apply app_nil_r
  | apply (Protocol_command _ _ resp); auto; constructor ].

Lemma executeStep_follows (step : string) (ctx : ExecutionContext) (t : Q) :
  follows_protocol (executeStep step ctx t).
Proof.
  intros env.
  unfold executeStep, try_catch, bind, call_queryOpenAI,
    call_executeAgentCommand, ret.
  destruct (queryOpenAI _ _ (world env)) as [[resp | e] w]; [ | one_more ].
  destruct (String.eqb (choice resp) "terminalCommand") eqn:Hc.
  - apply String.eqb_eq in Hc. cbn [world trace].
    destruct (executeAgentCommand _ _ w) as [[r | e] w']; cbn [snd trace];
      command_after resp.
  - destruct (String.eqb (choice resp) "code"); [ one_more | ].
    destruct (String.eqb (choice resp) "response"); one_more.
Qed.

Lemma createRecoverySolution_follows (step : string) (info : StepOutcome)
    (ctx : ExecutionContext) :
  follows_protocol (createRecoverySolution step info ctx).
Proof.
  unfold createRecoverySolution.
  apply try_catch_follows; [ | intros; apply ret_follows ].
  apply bind_follows; [ apply query_follows | intros; apply ret_follows ].
Qed.

Lemma reassessPlan_follows (steps : list string) (ctx : ExecutionContext) :
  follows_protocol (reassessPlan steps ctx).
Proof.
  unfold reassessPlan.
  apply try_catch_follows; [ | intros; apply ret_follows ].
  apply bind_follows; [ apply query_follows | intros; apply ret_follows ].
Qed.

Lemma reassess_branch_follows (o : Options) (ctx : ExecutionContext)
    (steps : list string) (idx it cf : nat) :
  follows_protocol (reassess_branch o ctx steps idx it cf).
Proof.
  unfold reassess_branch.
  apply bind_follows; [ apply reassessPlan_follows | ].
  intros [revised reasoning resp | err revised]; [ | apply ret_follows ].
  apply bind_follows; [ apply report_follows | intros; apply ret_follows ].
Qed.

Lemma recovery_branch_follows (o : Options) (ctx : ExecutionContext)
    (steps : list string) (idx it cf : nat) (step : string)
    (result : StepOutcome) :
  follows_protocol (recovery_branch o ctx steps idx it cf step result).
Proof.
  intros env.
  unfold recovery_branch, createRecoverySolution, try_catch, bind,
    call_queryOpenAI, call_executeAgentCommand.
  destruct (queryOpenAI _ _ (world env)) as [[resp | e] w];
    unfold ret at 1; [ | unfold ret; one_more ].
  destruct (String.eqb (choice resp) "terminalCommand") eqn:Hc.
  - apply String.eqb_eq in Hc. cbn [world trace].
    destruct (executeAgentCommand _ _ w) as [[r | e] w'];
      [ | cbn [snd trace]; command_after resp ].
    unfold ret at 1.
    match goal with
    | |- context [report o ?p ?x] =>
        destruct (report_follows o p x) as (l & E & P);
        destruct (report_returns o p x) as (env2 & R & _)
    end.
    rewrite R in *. unfold ret. cbn [snd trace] in *.
    apply extends_by_two in E.
    eexists. split; [ exact E | ].
    apply (Protocol_command _ _ resp); auto.
  - unfold ret at 1.
    match goal with
    | |- context [report o ?p ?x] =>
        destruct (report_follows o p x) as (l & E & P);
        destruct (report_returns o p x) as (env2 & R & _)
    end.
    rewrite R in *. unfold ret. cbn [snd trace] in *.
    apply extends_by_one in E.
    eexists. split; [ exact E | ].
    apply Protocol_query. exact P.
Qed.

Lemma loop_body_follows (o : Options) (st : LoopState) :
  follows_protocol (loop_body o st).
Proof.
  unfold loop_body.
  apply bind_follows; [ apply executeStep_follows | ].
  intros result. destruct (JS.truthy_flag (success result)).
  - apply bind_follows; [ apply report_follows | intros; apply ret_follows ].
  - apply bind_follows; [ apply report_follows | intros _ ].
    destruct (_ <=? _)%Z;
      [ apply reassess_branch_follows | apply recovery_branch_follows ].
Qed.

Lemma run_loop_follows (o : Options) (fuel : nat) :
  forall st, follows_protocol (run_loop o fuel st).
Proof.
  induction fuel as [ | fuel IH]; intros st; simpl;
    destruct (loop_guard o st); try apply ret_follows.
  apply bind_follows; [ apply loop_body_follows | exact IH ].
Qed.

Lemma verifyRequestFulfillment_follows (steps : list string) (ctx : ExecutionContext)
    (o : Options) :
  follows_protocol (verifyRequestFulfillment steps ctx o).
Proof.
  unfold verifyRequestFulfillment.
  apply bind_follows.
  - unfold verification_prompt.
    destruct (JS.truthy (verificationPrompt o)); [ apply ret_follows | ].
    destruct (all_some _); [ apply ret_follows | apply throw_follows ].
  - intros prompt. apply try_catch_follows; [ | intros; apply ret_follows ].
    apply bind_follows; [ apply query_follows | intros; apply ret_follows ].
Qed.

Lemma summarize_follows (steps : list string) (o : Options) (st : LoopState) :
  follows_protocol (summarize steps o st).
Proof.
  unfold summarize.
  apply bind_follows; [ | intros; apply ret_follows ].
  destruct (verify o && _); [ | apply ret_follows ].
  apply bind_follows;
    [ apply verifyRequestFulfillment_follows | intros; apply ret_follows ].
Qed.

Lemma executeStepsWithResilience_follows (steps : list string) (o : Options) :
  follows_protocol (executeStepsWithResilience steps o).
Proof.
  unfold executeStepsWithResilience, executeStepsWithResilience_upto.
  apply bind_follows; [ apply run_loop_follows | ].
  intros [st | ]; [ | apply ret_follows ].
  apply bind_follows; [ apply summarize_follows | intros; apply ret_follows ].
Qed.

(** ** The summary *)

Lemma summarize_fields (steps : list string) (o : Options) (st : LoopState)
    (env : Env) (s : Summary) (env' : Env) :
  summarize steps o st env = (Returned s, env') ->
  s_success s = (length (currentSteps st) <=? currentStepIndex st)
  /\ s_completed s = (length (currentSteps st) <=? currentStepIndex st)
  /\ reachedMaxIterations s
     = (get_maxIterations o <=? Z.of_nat (iteration st))%Z
  /\ totalSteps s = length (currentSteps st)
  /\ s_completedSteps s = completedSteps (context st)
  /\ iterations s = iteration st
  /\ successRate s = JS.percent (length (completedSteps (context st)))
                                (length (currentSteps st)).
Proof.
  unfold summarize, bind.
  destruct (verify o && _).
  - destruct (verifyRequestFulfillment _ _ _ env) as [[v | e] env1];
      [ | discriminate ].
    unfold ret. intros H. injection H as <- <-. repeat split.
  - unfold ret. intros H. injection H as <- <-. repeat split.
Qed.

Lemma run_summary (fuel : nat) (steps : list string) (o : Options) (env : Env)
    (s : Summary) (env' : Env) :
  executeStepsWithResilience_upto fuel steps o env = (Returned (Some s), env') ->
  exists st env1,
    run_loop o fuel (initial_state steps o) env = (Returned (Some st), env1)
    /\ summarize steps o st env1 = (Returned s, env').
Proof.
  unfold executeStepsWithResilience_upto, bind.
  destruct (run_loop o fuel (initial_state steps o) env)
    as [[[st | ] | e] env1]; try discriminate.
  destruct (summarize steps o st env1) as [[s' | e] env2] eqn:S;
    try discriminate.
  unfold ret. intros H. injection H as <- <-. eauto.
Qed.

(** ** Options that the loop never reads *)

(** The same options with other values under the four command-execution
    keys. *)
Definition set_flags (o : Options) (a d : option bool) (t : option Z)
    (ad : option bool) : Options :=
  {| maxIterations := maxIterations o;
     maxConsecutiveFailures := maxConsecutiveFailures o;
     temperature := temperature o;
     opt_globalContext := opt_globalContext o;
     onProgress := onProgress o;
     verify := verify o;
     verificationPrompt := verificationPrompt o;
     opt_autoApprove := a;
     opt_dryRun := d;
     opt_timeout := t;
     opt_allowDangerous := ad |}.

Lemma run_loop_ignores_flags (o : Options) (a d : option bool) (t : option Z)
    (ad : option bool) (fuel : nat) :
  forall st env,
    run_loop (set_flags o a d t ad) fuel st env = run_loop o fuel st env.
Proof.
  induction fuel as [ | fuel IH]; intros st env; [ reflexivity | ].
  simpl. change (loop_guard (set_flags o a d t ad) st) with (loop_guard o st).
  destruct (loop_guard o st); [ | reflexivity ].
  unfold bind.
  change (loop_body (set_flags o a d t ad) st env) with (loop_body o st env).
  destruct (loop_body o st env) as [[st1 | e] env1]; [ apply IH | reflexivity ].
Qed.

(** What a command event must look like: run with the options of a step
    command or with those of a recovery command, and so approved in
    advance, not a dry run, and limited to 60 seconds. *)
Definition fixed_options (e : Event) : Prop :=
  match e with
  | EvExec _ opts _ =>
      (opts = step_exec_options \/ opts = recovery_exec_options)
      /\ autoApprove opts = Some true
      /\ JS.truthy_flag (dryRun opts) = false
      /\ timeout opts = Some 60000%Z
  | _ => True
  end.

Lemma protocol_fixed_options (l : list Event) :
  Protocol l -> Forall fixed_options l.
Proof.
  induction 1 as [ | p l P IH | prompt qopts answer l P IH
                   | prompt qopts resp cmd opts result l Hc Hcmd Hopts P IH ].
  - constructor.
  - constructor; [ exact I | exact IH ].
  - constructor; [ exact I | exact IH ].
  - constructor; [ exact I | ].
    constructor; [ | exact IH ].
    split; [ exact Hopts | ].
    destruct Hopts as [-> | ->]; repeat split.
Qed.

(** C9.  Whatever options [executeStepsWithResilience] is given, every
    terminal command it issues, for a step or for a recovery, is executed
    with [autoApprove] true, not as a dry run, and with a timeout of 60000
    ms; and writing other values under the keys [autoApprove], [dryRun],
    [timeout] or [allowDangerous] of the options changes nothing at all. *)
Theorem commands_run_with_fixed_options (steps : list string) (o : Options)
    (env : Env) :
  (exists l,
      trace (snd (executeStepsWithResilience steps o env)) = trace env ++ l
      /\ Forall fixed_options l)
  /\ (forall a d t ad,
         executeStepsWithResilience steps (set_flags o a d t ad) env
         = executeStepsWithResilience steps o env).
Proof.
  split.
  - destruct (executeStepsWithResilience_follows steps o env) as (l & E & P).
    exists l. split; [ exact E | apply protocol_fixed_options, P ].
  - intros a d t ad.
    unfold executeStepsWithResilience, executeStepsWithResilience_upto, bind.
    change (get_maxIterations (set_flags o a d t ad)) with (get_maxIterations o).
    change (initial_state steps (set_flags o a d t ad))
      with (initial_state steps o).
    rewrite run_loop_ignores_flags.
    destruct (run_loop o _ _ env) as [[[st | ] | e] env1]; reflexivity.
Qed.

(** The step text is part of the prompt, as it is. *)
Lemma step_query_embeds_step (step : string) (ctx : ExecutionContext) :
  exists before after,
    (step_query step ctx = before ++ step ++ after)%string.
Proof.
  unfold step_query, JS.join. rewrite app_assoc.
  match goal with
  | |- context [String.concat ?sep (?pre ++ [?x; ?y])] =>
      destruct (concat_last_two sep pre x y) as (p & ->)
  end.
  exists (p ++ JS.nl ++ "Current step to execute: ")%string.
  eexists. rewrite !append_assoc. reflexivity.
Qed.

Lemma executeStep_query (step : string) (ctx : ExecutionContext) (t : Q) (env : Env) :
  exists answer rest,
    trace (snd (executeStep step ctx t env))
    = trace env
      ++ EvQuery (step_query step ctx)
           {| q_temperature := t; q_context := globalContext ctx |} answer
         :: rest.
Proof.
  unfold executeStep, try_catch, bind, call_queryOpenAI,
    call_executeAgentCommand, ret.
  destruct (queryOpenAI _ _ (world env)) as [[resp | e] w];
    [ | do 2 eexists; reflexivity ].
  destruct (String.eqb (choice resp) "terminalCommand").
  - cbn [world trace].
    destruct (executeAgentCommand _ _ w) as [[r | e] w']; cbn [snd trace];
      do 2 eexists; apply extends_by_two; symmetry; apply app_nil_r.
  - destruct (String.eqb (choice resp) "code");
      [ do 2 eexists; reflexivity | ].
    destruct (String.eqb (choice resp) "response"); do 2 eexists; reflexivity.
Qed.

Lemma command_phase_substitutes (cfg : Orchestrator.Config) (m : SecretVault.SecretMapping)
    (aiResponse : Response) (env : Env) :
  choice aiResponse = "terminalCommand" ->
  Orchestrator.skipRedaction cfg = false ->
  exists result,
    trace (snd (Orchestrator.command_phase cfg m aiResponse env))
    = trace env
      ++ [EvExec
            {| command := option_map (fun c => SecretVault.substitute c m)
                                     (terminalCommand aiResponse);
               cmd_commandReasoning := commandReasoning aiResponse;
               cmd_requiresApproval := requiresApproval aiResponse |}
            (Orchestrator.command_options cfg) result].
Proof.
  intros Hc Hskip.
  unfold Orchestrator.command_phase, Orchestrator.realCommand.
  rewrite Hc, Hskip, String.eqb_refl.
  unfold try_catch, bind, call_executeAgentCommand, ret.
  destruct (executeAgentCommand _ _ (world env)) as [[r | e] w];
    eexists; reflexivity.
Qed.

(** C1, as amended.  The loop has no vault: every command it hands to
    [executeAgentCommand] is the [terminalCommand] of the Oracle answer just
    before it, unchanged, and the prompt of a step is built from the step
    text as it is.  Placeholders are restored only by [processUserRequest],
    before its own command, unless [skipRedaction] is set. *)
Theorem loop_hands_text_over_unchanged :
  (forall steps o env,
      exists l,
        trace (snd (executeStepsWithResilience steps o env)) = trace env ++ l
        /\ Protocol l)
  /\ (forall step ctx t env,
         exists answer rest,
           trace (snd (executeStep step ctx t env))
           = trace env
             ++ EvQuery (step_query step ctx)
                  {| q_temperature := t; q_context := globalContext ctx |}
                  answer
                :: rest)
  /\ (forall step ctx,
         exists before after,
           (step_query step ctx = before ++ step ++ after)%string)
  /\ (forall cfg m aiResponse env,
         choice aiResponse = "terminalCommand" ->
         Orchestrator.skipRedaction cfg = false ->
         exists result,
           trace (snd (Orchestrator.command_phase cfg m aiResponse env))
           = trace env
             ++ [EvExec
                   {| command :=
                        option_map (fun c => SecretVault.substitute c m)
                                   (terminalCommand aiResponse);
                      cmd_commandReasoning := commandReasoning aiResponse;
                      cmd_requiresApproval := requiresApproval aiResponse |}
                   (Orchestrator.command_options cfg) result]).
Proof.
  split; [ | split; [ | split ] ].
  - apply executeStepsWithResilience_follows.
  - apply executeStep_query.
  - apply step_query_embeds_step.
  - intros cfg m aiResponse env.
    apply (command_phase_substitutes cfg m aiResponse env).
Qed.

(** ** States that a run passes through *)






(** ** Single iterations that fail *)

(** The failure record that an iteration from [st] pushes. *)
Definition failure_of (st : LoopState) (result : StepOutcome) : Failure :=
  {| f_step := step_at st;
     f_iteration := S (iteration st);
     f_error := outcome_error result;
     f_details := errorDetails result |}.

(** C4, as amended.  When a step fails and the count of consecutive failures
    thereby reaches [maxConsecutiveFailures], the loop asks the Oracle to
    reassess the rest of the plan.  If that call returns, the rest of the
    plan is replaced by the numbered steps of the answer (and kept when the
    answer has none), [reassessments] grows by one and the count is reset to
    0.  If that call throws, the plan and [reassessments] stay as they are
    and the count is not reset. *)
Theorem reassessment_at_threshold (o : Options) (st : LoopState) (env : Env)
    (result : StepOutcome) (env1 : Env) :
  executeStep (step_at st) (context st) (get_temperature o) env
  = (Returned result, env1) ->
  JS.truthy_flag (success result) = false ->
  (get_maxConsecutiveFailures o <= Z.of_nat (S (consecutiveFailures st)))%Z ->
  let ctx := push_failure (context st) (failure_of st result) in
  let tail := skipn (currentStepIndex st) (currentSteps st) in
  let qopts := {| q_temperature := 0.8%Q; q_context := globalContext ctx |} in
  exists env',
    (exists answer,
        In (EvQuery (reassess_prompt tail ctx) qopts answer) (trace env'))
    /\ match fst (queryOpenAI (reassess_prompt tail ctx) qopts (world env1)) with
       | Returned resp =>
           loop_body o st env
           = (Returned
                {| context := incr_reassessments ctx;
                   currentSteps :=
                     firstn (currentStepIndex st) (currentSteps st)
                     ++ match extract_revised_steps resp with
                        | [] => tail
                        | _ => extract_revised_steps resp
                        end;
                   currentStepIndex := currentStepIndex st;
                   iteration := S (iteration st);
                   consecutiveFailures := 0 |}, env')
       | Thrown _ =>
           loop_body o st env
           = (Returned
                {| context := ctx;
                   currentSteps := currentSteps st;
                   currentStepIndex := currentStepIndex st;
                   iteration := S (iteration st);
                   consecutiveFailures := S (consecutiveFailures st) |}, env')
       end.
Proof.
  intros Hstep Hfail Hmax ctx tail qopts.
  unfold loop_body, bind. fold (step_at st).
  rewrite Hstep, Hfail.
  apply Z.leb_le in Hmax. rewrite Hmax.
  unfold reassess_branch, reassessPlan, try_catch, bind, call_queryOpenAI.
  fold (failure_of st result). fold ctx. fold tail. fold qopts.
  unfold report, emit, ret.
  destruct (onProgress o); cbn [world trace];
    destruct (queryOpenAI (reassess_prompt tail ctx) qopts (world env1))
      as [[resp | e] w]; cbn [fst];
    eexists; (split; [ eexists | reflexivity ]);
    cbn [trace]; rewrite ?in_app_iff; simpl; eauto 10.
Qed.

(** C10.  When a step fails below the threshold, the Oracle's recovery
    action is a terminal command and that command succeeds, the iteration
    ends with the count of consecutive failures at 0 although the step has
    not been completed: the cursor, the plan and the completed steps are as
    before.  A later reassessment needs the count to climb from there to
    [maxConsecutiveFailures] again. *)
Theorem successful_recovery_resets_the_count (o : Options) (st : LoopState)
    (env : Env) (result : StepOutcome) (env1 : Env) (resp : Response)
    (w2 : World) (rr : CommandResult) (w3 : World) :
  executeStep (step_at st) (context st) (get_temperature o) env
  = (Returned result, env1) ->
  JS.truthy_flag (success result) = false ->
  (Z.of_nat (S (consecutiveFailures st)) < get_maxConsecutiveFailures o)%Z ->
  let ctx := push_failure (context st) (failure_of st result) in
  queryOpenAI (recovery_prompt (step_at st) result ctx)
    {| q_temperature := 0.7%Q; q_context := globalContext ctx |} (world env1)
  = (Returned resp, w2) ->
  choice resp = "terminalCommand" ->
  executeAgentCommand
    {| command := terminalCommand resp;
       cmd_commandReasoning := Some "Recovery attempt";
       cmd_requiresApproval := Some false |} recovery_exec_options w2
  = (Returned rr, w3) ->
  status rr = "success" ->
  (exists env',
      loop_body o st env
      = (Returned
           {| context :=
                push_recovery ctx
                  {| ra_step := step_at st;
                     ra_iteration := S (iteration st);
                     ra_solution :=
                       response_text resp "Retry with modifications" |};
              currentSteps := currentSteps st;
              currentStepIndex := currentStepIndex st;
              iteration := S (iteration st);
              consecutiveFailures := 0 |}, env'))
  /\ (forall st2 env2 st3 env3,
         loop_body o st2 env2 = (Returned st3, env3) ->
         reassessments (context st3) <> reassessments (context st2) ->
         (get_maxConsecutiveFailures o
          <= Z.of_nat (S (consecutiveFailures st2)))%Z).
Proof.
  intros Hstep Hfail Hmax ctx Hquery Hchoice Hexec Hstatus.
  split.
  - unfold loop_body, bind. fold (step_at st).
    rewrite Hstep, Hfail.
    apply Z.leb_gt in Hmax. rewrite Hmax.
    unfold recovery_branch, createRecoverySolution, try_catch, bind,
      call_queryOpenAI, call_executeAgentCommand.
    fold (failure_of st result). fold ctx.
    unfold report, emit, ret.
    destruct (onProgress o); cbn [world trace];
      rewrite Hquery; cbn [choice]; rewrite Hchoice, String.eqb_refl;
      cbn [world trace]; rewrite Hexec, Hstatus, String.eqb_refl;
      eexists; reflexivity.
  - intros st2 env2 st3 env3 B Hne.
    apply loop_body_transition in B.
    destruct B as [r | f revised Hf Hm Hrev | f Hf Hm | f ctx' cf' Hf Hm Hctx Hcf];
      cbn [context] in Hne.
    + exfalso. apply Hne. reflexivity.
    + exact Hm.
    + exfalso. apply Hne. reflexivity.
    + exfalso. apply Hne. destruct Hctx as [-> | (a & ->)]; reflexivity.
Qed.

(** ** When the loop returns *)





End LoopProperties.

(* ================================================================== *)
(** * Properties of the policy gate *)
(* ================================================================== *)

Section GateProperties.

Import PolicyGate.

Variable rules : list Rule.
Variable needs_approval : string -> bool.

Lemma classify_blocked_iff (cmd : string) (options : ExecOptions) :
  classification (classify rules needs_approval cmd options) = blocked
  <-> exists r, In r rules /\ test r cmd = true.
Proof.
  unfold classify.
  destruct (find (fun r => test r cmd) rules) as [r | ] eqn:F.
  - split; [ intros _ | reflexivity ].
    apply find_some in F. exists r. exact F.
  - split.
    + destruct (needs_approval cmd && _); discriminate.
    + intros (r & Hin & Ht).
      apply (find_none _ _ F) in Hin. simpl in Hin. congruence.
Qed.

End GateProperties.

(** C3.  A command that matches a rule of the table is classified as
    blocked under every setting of the flags; whether a command is blocked
    never depends on the flags, so they only ever choose between
    requires-approval and auto-approved; and ["rm -rf /"] is blocked by the
    documented table whatever the flags. *)
Theorem destructive_commands_stay_blocked (rules : list PolicyGate.Rule)
    (needs_approval : string -> bool) (cmd : string) :
  ((exists r, In r rules /\ PolicyGate.test r cmd = true) ->
   forall options,
     PolicyGate.classification
       (PolicyGate.classify rules needs_approval cmd options)
     = PolicyGate.blocked)
  /\ (forall options options',
         PolicyGate.classification
           (PolicyGate.classify rules needs_approval cmd options)
         = PolicyGate.blocked
         <-> PolicyGate.classification
               (PolicyGate.classify rules needs_approval cmd options')
             = PolicyGate.blocked)
  /\ ((forall r, In r rules -> PolicyGate.test r cmd = false) ->
      forall options,
        PolicyGate.classification
          (PolicyGate.classify rules needs_approval cmd options)
        = (if needs_approval cmd && negb (JS.truthy_flag (autoApprove options))
           then PolicyGate.requires_approval
           else PolicyGate.auto_approved))
  /\ (forall a d t ad,
         PolicyGate.classification
           (PolicyGate.classify PolicyGate.DANGEROUS_PATTERNS needs_approval
              "rm -rf /"
              {| autoApprove := a; dryRun := d; timeout := t;
                 allowDangerous := ad |})
         = PolicyGate.blocked).
Proof.
  split; [ | split; [ | split ] ].
  - intros H options. apply classify_blocked_iff, H.
  - intros options options'. rewrite !classify_blocked_iff. reflexivity.
  - intros H options. unfold PolicyGate.classify.
    destruct (find (fun r => PolicyGate.test r cmd) rules) as [r | ] eqn:F.
    + apply find_some in F as [Hin Ht]. rewrite (H r Hin) in Ht. discriminate.
    + destruct (needs_approval cmd && _); reflexivity.
  - intros a d t ad. apply classify_blocked_iff.
    eexists. split; [ left; reflexivity | vm_compute; reflexivity ].
Qed.

(* ================================================================== *)
(** * Properties of the vault *)
(* ================================================================== *)

Section VaultProperties.

Import SecretVault.

Local Open Scope list_scope.

(** ** What a text is cut into *)








(** ** Text without the opening of a placeholder *)








(** ** Literal text and secrets alternate *)






(** ** Placeholder texts *)





Lemma prefix_exists (a x : string) :
  String.prefix a x = true -> exists b, x = (a ++ b)%string.
Proof.
  revert x. induction a as [ | c a IH]; intros x H.
  - exists x. reflexivity.
  - destruct x as [ | d x]; simpl in H; [ discriminate | ].
    destruct (ascii_dec c d) as [-> | _]; [ | discriminate ].
    destruct (IH x H) as (b & ->). exists b. reflexivity.
Qed.




(** ** Mappings *)







(** ** The redacted text *)



(** ** Restoring *)







End VaultProperties.


(* ================================================================== *)
(** * The books of a run *)
(* ================================================================== *)

Section LoopAccounting.

Context {C : Collaborators}.

Local Open Scope list_scope.

(** What the summary copies from the context. *)
Lemma summarize_context (steps : list string) (o : Options) (st : LoopState)
    (env : Env) (s : Summary) (env' : Env) :
  summarize steps o st env = (Returned s, env') ->
  failureCount s = length (failures (context st))
  /\ s_failures s = failures (context st)
  /\ s_recoveryAttempts s = recoveryAttempts (context st)
  /\ s_reassessments s = reassessments (context st)
  /\ (verification s <> None <->
      verify o && (length (currentSteps st) <=? currentStepIndex st) = true).
Proof.
  unfold summarize, bind.
  destruct (verify o && _).
  - destruct (verifyRequestFulfillment _ _ _ env) as [[v | e] env1];
      [ | discriminate ].
    unfold ret. intros H. injection H as <- <-. cbn.
    repeat split; congruence.
  - unfold ret. intros H. injection H as <- <-. cbn.
    repeat split; congruence.
Qed.

(** Every iteration so far has left exactly one record, a completed step or
    a failure, under its own number; and no failure has led to more than one
    recovery attempt or reassessment. *)
Definition recorded (st : LoopState) : Prop :=
  Permutation (map cs_iteration (completedSteps (context st))
               ++ map f_iteration (failures (context st)))
              (seq 1 (iteration st))
  /\ length (recoveryAttempts (context st)) + reassessments (context st)
     <= length (failures (context st)).

Lemma initial_state_recorded (steps : list string) (o : Options) :
  recorded (initial_state steps o).
Proof. split; simpl; [ constructor | lia ]. Qed.

Lemma permutation_snoc_left {A : Type} (a b l : list A) (x : A) :
  Permutation (a ++ b) l -> Permutation ((a ++ [x]) ++ b) (l ++ [x]).
Proof.
  intros H. rewrite <- app_assoc.
  transitivity (a ++ b ++ [x]).
  - apply Permutation_app_head, Permutation_app_comm.
  - rewrite app_assoc. apply Permutation_app_tail, H.
Qed.

Lemma permutation_snoc_right {A : Type} (a b l : list A) (x : A) :
  Permutation (a ++ b) l -> Permutation (a ++ b ++ [x]) (l ++ [x]).
Proof. intros H. rewrite app_assoc. apply Permutation_app_tail, H. Qed.

Lemma transition_recorded (o : Options) (st st' : LoopState) :
  Transition o st st' -> recorded st -> recorded st'.
Proof.
  intros T [Hp Hle].
  destruct T as [r | f revised [_ Hf] Hmax Hne | f [_ Hf] Hmax
                 | f ctx' cf' [_ Hf] Hmax Hctx Hcf];
    unfold recorded; cbn [context iteration]; rewrite seq_S; cbn [Nat.add].
  - cbn [push_completed completedSteps failures recoveryAttempts reassessments].
    rewrite map_app. cbn [map cs_iteration].
    split; [ apply permutation_snoc_left, Hp | exact Hle ].
  - cbn [incr_reassessments push_failure completedSteps failures
           recoveryAttempts reassessments].
    rewrite map_app, length_app. cbn [map length]. rewrite Hf.
    split; [ apply permutation_snoc_right, Hp | lia ].
  - cbn [push_failure completedSteps failures recoveryAttempts reassessments].
    rewrite map_app, length_app. cbn [map length]. rewrite Hf.
    split; [ apply permutation_snoc_right, Hp | lia ].
  - destruct Hctx as [-> | (a & ->)];
      cbn [push_recovery push_failure completedSteps failures
             recoveryAttempts reassessments];
      rewrite map_app, ?length_app; cbn [map length]; rewrite Hf;
      (split; [ apply permutation_snoc_right, Hp | lia ]).
Qed.

Lemma run_recorded (o : Options) (st st' : LoopState) :
  Run o st st' -> recorded st -> recorded st'.
Proof.
  induction 1 as [st | st st1 st2 G T R IH]; intros Inv; [ exact Inv | ].
  apply IH. eapply transition_recorded; eauto.
Qed.

(** X2.  When a summary is returned, every iteration of the run has left
    exactly one record under its own number: the iteration numbers of the
    completed steps and of the failures are, together, 1, 2, ...,
    [iterations], each of them once.  So [iterations] is the number of
    completed steps plus [failureCount], [failureCount] is the length of
    [failures], and the recovery attempts and the reassessments together
    are no more than the failures. *)
Theorem every_iteration_is_recorded_once (steps : list string) (o : Options)
    (env : Env) (s : Summary) (env' : Env) :
  executeStepsWithResilience steps o env = (Returned (Some s), env') ->
  Permutation (map cs_iteration (s_completedSteps s)
               ++ map f_iteration (s_failures s))
              (seq 1 (iterations s))
  /\ iterations s = length (s_completedSteps s) + failureCount s
  /\ failureCount s = length (s_failures s)
  /\ length (s_recoveryAttempts s) + s_reassessments s <= failureCount s.
Proof.
  intros E. apply run_summary in E as (st & env1 & Hrun & Hsum).
  apply run_loop_run in Hrun as [R _].
  destruct (run_recorded _ _ _ R (initial_state_recorded steps o)) as [Hp Hle].
  pose proof (summarize_fields _ _ _ _ _ _ Hsum)
    as (_ & _ & _ & _ & Hdone & Hit & _).
  apply summarize_context in Hsum as (Hcount & Hfs & Hras & Hre & _).
  rewrite Hdone, Hit, Hcount, Hfs, Hras, Hre.
  repeat split; try assumption.
  apply Permutation_length in Hp.
  rewrite length_app, !length_map, length_seq in Hp. lia.
Qed.

(** ** Calls made to the collaborators *)

Definition is_query (e : Event) : bool :=
  match e with EvQuery _ _ _ => true | _ => false end.

Definition is_command (e : Event) : bool :=
  match e with EvExec _ _ _ => true | _ => false end.

(** The number of [queryOpenAI] calls and of [executeAgentCommand] calls in
    a trace. *)
Definition queries (l : list Event) : nat := length (filter is_query l).

Definition commands (l : list Event) : nat := length (filter is_command l).

Lemma queries_app (a b : list Event) : queries (a ++ b) = queries a + queries b.
Proof. unfold queries. rewrite filter_app, length_app. reflexivity. Qed.

Lemma commands_app (a b : list Event) :
  commands (a ++ b) = commands a + commands b.
Proof. unfold commands. rewrite filter_app, length_app. reflexivity. Qed.

Ltac case_split :=
  repeat (cbn [fst snd world trace success executed executionResult error
                 errorDetails so_code so_message so_response JS.truthy_flag];
          match goal with
          | |- context [queryOpenAI ?a ?b ?w] =>
              destruct (queryOpenAI a b w) as [[? | ?] ?]
          | |- context [executeAgentCommand ?a ?b ?w] =>
              destruct (executeAgentCommand a b w) as [[? | ?] ?]
          | |- context [if ?b then _ else _] => destruct b eqn:?
          | |- context [match ?x with _ => _ end] => destruct x eqn:?
          end).

(** One iteration asks the Oracle once for the step and once more for each
    failure it records; it runs at most one command for the step and one for
    each recovery attempt it records. *)
Lemma loop_body_calls (o : Options) (st : LoopState) (env : Env)
    (st' : LoopState) (env' : Env) :
  loop_body o st env = (Returned st', env') ->
  queries (trace env') + length (failures (context st))
  = queries (trace env) + 1 + length (failures (context st'))
  /\ commands (trace env') + length (recoveryAttempts (context st))
     <= commands (trace env) + 1 + length (recoveryAttempts (context st')).
Proof.
  unfold loop_body, executeStep, reassess_branch, recovery_branch,
    reassessPlan, createRecoverySolution, report, emit, try_catch, bind,
    call_queryOpenAI, call_executeAgentCommand, ret.
  case_split;
    intros H; try discriminate; injection H as <- <-;
    cbn [context trace push_failure push_recovery push_completed
           incr_reassessments failures recoveryAttempts];
    rewrite ?queries_app, ?commands_app, ?length_app; cbn; lia.
Qed.

Lemma run_loop_calls (o : Options) (fuel : nat) :
  forall (st : LoopState) (env : Env) (st' : LoopState) (env' : Env),
    run_loop o fuel st env = (Returned (Some st'), env') ->
    queries (trace env') + iteration st + length (failures (context st))
    = queries (trace env) + iteration st' + length (failures (context st'))
    /\ commands (trace env') + iteration st
       + length (recoveryAttempts (context st))
       <= commands (trace env) + iteration st'
          + length (recoveryAttempts (context st')).
Proof.
  induction fuel as [ | fuel IH]; intros st env st' env'; simpl;
    destruct (loop_guard o st);
    try (unfold ret; intros H; try discriminate; injection H as <- <-; lia).
  unfold bind.
  destruct (loop_body o st env) as [[st1 | e] env1] eqn:B; [ | discriminate ].
  intros H. apply IH in H.
  pose proof (transition_iteration _ _ _ (loop_body_transition _ _ _ _ _ B)).
  apply loop_body_calls in B. lia.
Qed.

Lemma verification_calls (steps : list string) (ctx : ExecutionContext)
    (o : Options) (env : Env) (v : Verification) (env' : Env) :
  verifyRequestFulfillment steps ctx o env = (Returned v, env') ->
  queries (trace env') = S (queries (trace env))
  /\ commands (trace env') = commands (trace env).
Proof.
  unfold verifyRequestFulfillment, verification_prompt, try_catch, bind,
    call_queryOpenAI, ret, throw.
  destruct (JS.truthy (verificationPrompt o));
    [ | destruct (all_some _); [ | discriminate ] ];
    cbv beta iota;
    destruct (queryOpenAI _ _ (world env)) as [[resp | e] w];
    intros H; injection H as <- <-;
    cbn [trace]; rewrite queries_app, commands_app; cbn; lia.
Qed.

Lemma summarize_calls (steps : list string) (o : Options) (st : LoopState)
    (env : Env) (s : Summary) (env' : Env) :
  summarize steps o st env = (Returned s, env') ->
  queries (trace env')
  = queries (trace env) + match verification s with Some _ => 1 | None => 0 end
  /\ commands (trace env') = commands (trace env).
Proof.
  unfold summarize, bind.
  destruct (verify o && _).
  - destruct (verifyRequestFulfillment _ _ _ env) as [[v | e] env1] eqn:V;
      [ | discriminate ].
    apply verification_calls in V.
    unfold ret. intros H. injection H as <- <-. cbn [verification]. lia.
  - unfold ret. intros H. injection H as <- <-. cbn [verification]. lia.
Qed.

(** X3.  What a run that returns a summary has cost: the Oracle was asked
    exactly [iterations + failureCount] times, and once more if a
    verification was made; the runner was called at most
    [iterations + recoveryAttempts.length] times.  Hence never more than
    [2 * maxIterations + 1] Oracle calls and [2 * maxIterations]
    commands. *)
Theorem calls_of_a_run (steps : list string) (o : Options) (env : Env)
    (s : Summary) (env' : Env) :
  executeStepsWithResilience steps o env = (Returned (Some s), env') ->
  queries (trace env')
  = queries (trace env) + iterations s + failureCount s
    + match verification s with Some _ => 1 | None => 0 end
  /\ commands (trace env')
     <= commands (trace env) + iterations s + length (s_recoveryAttempts s)
  /\ (Z.of_nat (queries (trace env') - queries (trace env))
      <= 2 * Z.max 0 (get_maxIterations o) + 1)%Z
  /\ (Z.of_nat (commands (trace env') - commands (trace env))
      <= 2 * Z.max 0 (get_maxIterations o))%Z.
Proof.
  intros E. apply run_summary in E as (st & env1 & Hrun & Hsum).
  pose proof (run_loop_calls _ _ _ _ _ _ Hrun) as [Hq Hc].
  apply run_loop_run in Hrun as [R _].
  destruct (run_recorded _ _ _ R (initial_state_recorded steps o)) as [Hp Hle].
  apply Permutation_length in Hp.
  rewrite length_app, !length_map, length_seq in Hp.
  apply run_iterations in R as [Hbound _].
  pose proof (summarize_fields _ _ _ _ _ _ Hsum)
    as (_ & _ & _ & _ & _ & Hit & _).
  pose proof (summarize_calls _ _ _ _ _ _ Hsum) as [Hq' Hc'].
  apply summarize_context in Hsum as (Hcount & _ & Hras & _ & _).
  rewrite Hit, Hcount, Hras. cbn in Hq, Hc, Hbound.
  destruct (verification s); repeat split; lia.
Qed.

(** ** An Oracle that always delivers *)

(** The Oracle answers every prompt, with code, with prose, or with a
    command that the runner then completes with status success. *)
Definition oracle_delivers : Prop :=
  forall prompt qopts w, exists resp w',
    queryOpenAI prompt qopts w = (Returned resp, w')
    /\ (choice resp = "code" \/ choice resp = "response"
        \/ (choice resp = "terminalCommand"
            /\ exists r w'',
                executeAgentCommand
                  {| command := terminalCommand resp;
                     cmd_commandReasoning := commandReasoning resp;
                     cmd_requiresApproval := requiresApproval resp |}
                  step_exec_options w' = (Returned r, w'')
                /\ status r = "success")).

Lemma loop_body_advances (o : Options) (st : LoopState) (env : Env) :
  oracle_delivers ->
  exists r env',
    loop_body o st env
    = (Returned
         {| context := push_completed (context st)
                         {| cs_step := step_at st;
                            cs_iteration := S (iteration st);
                            cs_status := "success";
                            cs_result := r |};
            currentSteps := currentSteps st;
            currentStepIndex := S (currentStepIndex st);
            iteration := S (iteration st);
            consecutiveFailures := 0 |}, env').
Proof.
  intros Hd.
  unfold loop_body, executeStep, report, emit, try_catch, bind,
    call_queryOpenAI, call_executeAgentCommand, ret.
  fold (step_at st).
  destruct (Hd (step_query (step_at st) (context st))
              {| q_temperature := get_temperature o;
                 q_context := globalContext (context st) |} (world env))
    as (resp & w' & -> & [Hc | [Hc | (Hc & r & w'' & Hr & Hs)]]);
    rewrite Hc; cbn [String.eqb Ascii.eqb Bool.eqb world trace].
  - destruct (onProgress o); do 2 eexists; reflexivity.
  - destruct (onProgress o); do 2 eexists; reflexivity.
  - rewrite Hr, Hs. cbn [String.eqb Ascii.eqb Bool.eqb success JS.truthy_flag].
    destruct (onProgress o); do 2 eexists; reflexivity.
Qed.

(** Nothing has failed so far. *)
Definition unfailed (st : LoopState) : Prop :=
  failures (context st) = []
  /\ recoveryAttempts (context st) = []
  /\ reassessments (context st) = 0.

Lemma run_loop_unfailed (o : Options) (fuel : nat) :
  oracle_delivers ->
  forall st env,
    unfailed st ->
    exists r env',
      run_loop o fuel st env = (Returned r, env')
      /\ forall st', r = Some st' ->
           unfailed st' /\ currentSteps st' = currentSteps st.
Proof.
  intros Hd. induction fuel as [ | fuel IH]; intros st env Hst; simpl;
    destruct (loop_guard o st);
    try (unfold ret; do 2 eexists; split; [ reflexivity | ];
         intros st' E; try discriminate; injection E as <-; auto).
  unfold bind.
  destruct (loop_body_advances o st env Hd) as (r & env1 & ->).
  match goal with
  | |- context [run_loop o fuel ?st1 env1] =>
      destruct (IH st1 env1) as (r' & env' & E & K); [ exact Hst | ]
  end.
  rewrite E. do 2 eexists. split; [ reflexivity | ].
  intros st' ->. destruct (K st' eq_refl) as [U S]. split; assumption.
Qed.

(** X4.  With an Oracle that always delivers and no verification, the loop
    returns a summary in which the steps were completed in order, one in
    each iteration, up to [maxIterations] of them: no failure, no recovery
    attempt, no reassessment, one Oracle call for each step, and [success]
    exactly when the plan is no longer than [maxIterations]. *)
Theorem cooperative_run_completes_in_order (steps : list string) (o : Options)
    (env : Env) :
  oracle_delivers ->
  verify o = false ->
  exists s env',
    executeStepsWithResilience steps o env = (Returned (Some s), env')
    /\ iterations s = Nat.min (length steps) (Z.to_nat (get_maxIterations o))
    /\ map cs_step (s_completedSteps s) = firstn (iterations s) steps
    /\ totalSteps s = length steps
    /\ failureCount s = 0
    /\ s_recoveryAttempts s = []
    /\ s_reassessments s = 0
    /\ s_success s = (length steps <=? Z.to_nat (get_maxIterations o))
    /\ queries (trace env') = queries (trace env) + iterations s.
Proof.
  intros Hd Hv.
  pose proof (run_loop_enough o (Z.to_nat (get_maxIterations o))
                (initial_state steps o) env) as Hfuel.
  destruct (run_loop_unfailed o (Z.to_nat (get_maxIterations o)) Hd
              (initial_state steps o) env) as (r & env1 & E & K);
    [ repeat split | ].
  rewrite E in Hfuel. destruct r as [st | ];
    [ | exfalso; apply Hfuel; [ simpl; lia | reflexivity ] ].
  destruct (K st eq_refl) as [(Hf & Hra & Hre) Hsteps]. cbn in Hsteps.
  pose proof (run_loop_calls _ _ _ _ _ _ E) as [Hq _].
  pose proof (run_loop_run _ _ _ _ _ _ E) as [R G].
  destruct (run_recorded _ _ _ R (initial_state_recorded steps o)) as [Hp _].
  apply Permutation_length in Hp.
  rewrite length_app, !length_map, length_seq, Hf in Hp.
  destruct (run_keeps _ _ _ R (initial_state_prefix steps o)) as [Inv _].
  pose proof (executed_prefix_length st Inv) as Hlen.
  destruct Inv as (Hmap & Hle & _).
  apply run_iterations in R as [Hbound _].
  apply loop_guard_false in G.
  cbn in Hq, Hbound, Hp. rewrite Hf in Hq. rewrite Hsteps in *.
  assert (Hidx : currentStepIndex st = iteration st) by lia.
  assert (Hit : iteration st
                = Nat.min (length steps) (Z.to_nat (get_maxIterations o)))
    by lia.
  unfold executeStepsWithResilience, executeStepsWithResilience_upto, bind.
  rewrite E. unfold summarize, bind. rewrite Hv. cbn [andb]. unfold ret.
  do 2 eexists. split; [ reflexivity | ].
  cbn [iterations s_completedSteps totalSteps failureCount s_recoveryAttempts
         s_reassessments s_success].
  rewrite Hsteps, Hf, Hra, Hre, Hmap, Hidx.
  repeat split; try assumption; try lia.
  - apply eq_true_iff_eq. rewrite !Nat.leb_le. lia.
  - simpl in Hq. lia.
Qed.

(** X5.  With an empty plan, or with [maxIterations] at 0 or below, the
    loop calls neither the Oracle nor the runner and reports no progress: it
    returns at once, in the environment it was started in, a summary with 0
    iterations in which [success] says whether the plan was empty (the
    success rate of an empty plan is NaN).  Only the verification of an
    empty plan would still ask the Oracle. *)
Theorem nothing_runs_without_steps_or_budget (steps : list string)
    (o : Options) (env : Env) :
  steps = [] \/ (get_maxIterations o <= 0)%Z ->
  verify o = false \/ steps <> [] ->
  executeStepsWithResilience steps o env
  = (Returned
       (Some {| s_success := length steps <=? 0;
                s_completed := length steps <=? 0;
                reachedMaxIterations := (get_maxIterations o <=? 0)%Z;
                totalSteps := length steps;
                s_completedSteps := [];
                failureCount := 0;
                s_failures := [];
                s_recoveryAttempts := [];
                s_reassessments := 0;
                iterations := 0;
                successRate := JS.percent 0 (length steps);
                verification := None |}), env).
Proof.
  intros Hnone Hverify.
  assert (G : loop_guard o (initial_state steps o) = false).
  { unfold loop_guard. cbn [initial_state currentStepIndex currentSteps iteration].
    destruct Hnone as [-> | Hmax]; [ reflexivity | ].
    apply andb_false_iff. right. apply Z.ltb_ge. exact Hmax. }
  assert (V : verify o && (length steps <=? 0) = false).
  { destruct Hverify as [-> | Hne]; [ reflexivity | ].
    destruct steps; [ contradiction | apply andb_false_r ]. }
  unfold executeStepsWithResilience, executeStepsWithResilience_upto, bind.
  assert (R : run_loop o (Z.to_nat (get_maxIterations o)) (initial_state steps o)
                env = (Returned (Some (initial_state steps o)), env)).
  { destruct (Z.to_nat (get_maxIterations o)); simpl; rewrite G; reflexivity. }
  rewrite R. unfold summarize, bind.
  cbn [initial_state currentStepIndex currentSteps iteration context
         completedSteps failures recoveryAttempts reassessments].
  rewrite V. reflexivity.
Qed.

(** X6.  When the Oracle answers a step with a terminal command that the
    runner finishes with a status other than success, or with a choice that
    is none of terminalCommand, code and response, the iteration records the
    failure with the error text Unknown error and without details: the
    status and the output of the command do not reach the failure record.
    The step is neither completed nor passed over. *)
Theorem failed_command_is_an_unknown_error (o : Options) (st : LoopState)
    (env : Env) (resp : Response) (w : World) (st' : LoopState) (env' : Env) :
  queryOpenAI (step_query (step_at st) (context st))
    {| q_temperature := get_temperature o;
       q_context := globalContext (context st) |} (world env)
  = (Returned resp, w) ->
  (choice resp = "terminalCommand"
   /\ exists er w',
       executeAgentCommand
         {| command := terminalCommand resp;
            cmd_commandReasoning := commandReasoning resp;
            cmd_requiresApproval := requiresApproval resp |}
         step_exec_options w = (Returned er, w')
       /\ status er <> "success")
  \/ (choice resp <> "terminalCommand" /\ choice resp <> "code"
      /\ choice resp <> "response") ->
  loop_body o st env = (Returned st', env') ->
  (exists recoveries,
      failures (context st')
      = failures (context st)
        ++ [{| f_step := step_at st;
               f_iteration := S (iteration st);
               f_error := "Unknown error";
               f_details := None |}]
      /\ recoveryAttempts (context st')
         = recoveryAttempts (context st) ++ recoveries)
  /\ completedSteps (context st') = completedSteps (context st)
  /\ currentStepIndex st' = currentStepIndex st.
Proof.
  intros Hq Hcase.
  assert (E : exists result env1,
             executeStep (step_at st) (context st) (get_temperature o) env
             = (Returned result, env1)
             /\ JS.truthy_flag (success result) = false
             /\ outcome_error result = "Unknown error"
             /\ errorDetails result = None).
  { unfold executeStep, try_catch, bind, call_queryOpenAI,
      call_executeAgentCommand, ret.
    rewrite Hq.
    destruct Hcase as [(Hc & er & w' & He & Hs) | (H1 & H2 & H3)].
    - rewrite Hc, String.eqb_refl. cbn [world trace]. rewrite He.
      apply String.eqb_neq in Hs.
      do 2 eexists. split; [ reflexivity | ].
      cbn [success JS.truthy_flag]. rewrite Hs. repeat split.
    - apply String.eqb_neq in H1, H2, H3. rewrite H1, H2, H3.
      do 2 eexists. split; [ reflexivity | repeat split ]. }
  destruct E as (result & env1 & E & Hf & Herr & Hdet).
  unfold loop_body, bind. fold (step_at st). rewrite E, Hf, Herr, Hdet.
  unfold reassess_branch, recovery_branch, reassessPlan,
    createRecoverySolution, report, emit, try_catch, bind, call_queryOpenAI,
    call_executeAgentCommand, ret.
  case_split; intros H; try discriminate; injection H as <- <-;
    cbn [context currentStepIndex push_failure push_recovery
           incr_reassessments failures recoveryAttempts completedSteps];
    (split; [ | split; reflexivity ]);
    first [ exists []; split; [ reflexivity | symmetry; apply app_nil_r ]
          | eexists [_]; split; reflexivity ].
Qed.

End LoopAccounting.

(* ================================================================== *)
(** * Reading the Oracle's prose *)
(* ================================================================== *)

Section ReadingAnswers.

Context {C : Collaborators}.

Local Open Scope list_scope.







(** ** Lines *)




(** ** White space *)




(** ** Numbered lines *)










(** ** Keywords *)

Lemma contains_split (needle hay : string) :
  contains needle hay = true <->
  exists pre post, hay = (pre ++ needle ++ post)%string.
Proof.
  split.
  - induction hay as [ | c hay IH]; cbn [contains]; intros H;
      apply orb_prop in H as [H | H]; try discriminate.
    + apply prefix_exists in H as (b & E). exists "", b. exact E.
    + apply prefix_exists in H as (b & E). exists "", b. exact E.
    + destruct (IH H) as (pre & post & ->).
      exists (String c pre), post. reflexivity.
  - intros (pre & post & ->).
    induction pre as [ | c pre IH].
    + change ("" ++ needle ++ post)%string with (needle ++ post)%string.
      destruct (needle ++ post)%string eqn:E; cbn [contains];
        rewrite <- E, prefix_append; reflexivity.
    + change ((String c pre ++ needle ++ post)%string)
        with (String c (pre ++ needle ++ post)).
      cbn [contains]. rewrite IH. apply orb_true_r.
Qed.

(** A text that contains a word contains every part of that word. *)
Lemma contains_part (a b c hay : string) :
  contains (a ++ b ++ c) hay = true -> contains b hay = true.
Proof.
  intros H. apply contains_split in H as (pre & post & ->).
  apply contains_split. exists (pre ++ a)%string, (c ++ post)%string.
  rewrite !append_assoc. reflexivity.
Qed.

Lemma mentions_any_In (keywords : list string) (text k : string) :
  In k keywords -> contains k (lower text) = true ->
  mentions_any keywords text = true.
Proof.
  intros Hin Hk. unfold mentions_any. apply existsb_exists. eauto.
Qed.

(** ** The verdict of the verification *)

(** X9.  The verdict of the verification is fulfilled whenever the Oracle's
    assessment says incomplete, unsuccessful, not fully fulfilled or not all
    requirements met, in letters of any case: each of them contains a word
    of the favourable list, which overrules the unfavourable one. *)
Theorem incomplete_counts_as_complete (steps : list string)
    (ctx : ExecutionContext) (o : Options) (env : Env) (v : Verification)
    (env' : Env) (text : string) :
  verifyRequestFulfillment steps ctx o env = (Returned v, env') ->
  analysis v = Some text ->
  mentions_any ["incomplete"; "unsuccessful"; "not fully fulfilled";
                "not all requirements met"] text = true ->
  fulfilled v = true.
Proof.
  unfold verifyRequestFulfillment, bind, try_catch, call_queryOpenAI, ret.
  destruct (verification_prompt steps ctx o env) as [[prompt | e] env1];
    [ | discriminate ].
  destruct (queryOpenAI _ _ (world env1)) as [[resp | e] w];
    intros H; injection H as <- <-; cbn [analysis fulfilled];
    [ | discriminate ].
  intros E. injection E as ->. intros M.
  unfold mentions_any in M. apply existsb_exists in M as (k & Hin & Hk).
  unfold mentions_any. cbn [existsb].
  destruct Hin as [<- | [<- | [<- | [<- | []]]]].
  - rewrite (contains_part "in" "complete" "" _ Hk).
    rewrite ?orb_true_r. reflexivity.
  - rewrite (contains_part "un" "success" "ful" _ Hk).
    rewrite ?orb_true_r. reflexivity.
  - rewrite (contains_part "not " "fully fulfilled" "" _ Hk).
    rewrite ?orb_true_r. reflexivity.
  - rewrite (contains_part "not " "all requirements met" "" _ Hk).
    rewrite ?orb_true_r. reflexivity.
Qed.

Lemma all_some_blocks (l : list CompletedStep) :
  forall i,
    all_some (mapi_from i verification_block l) = None
    <-> Exists (fun c => cs_result c = None) l.
Proof.
  induction l as [ | c l IH]; intros i; cbn [mapi_from all_some].
  - split; [ discriminate | intros H; inversion H ].
  - unfold verification_block at 1.
    destruct (cs_result c) as [r | ] eqn:E.
    + destruct (all_some (mapi_from (S i) verification_block l)) eqn:A.
      * split; [ discriminate | ].
        intros H. inversion H as [? ? H0 | ? ? H0]; subst; [ congruence | ].
        apply (IH (S i)) in H0. congruence.
      * split; [ | reflexivity ].
        intros _. apply Exists_cons_tl, (IH (S i)), A.
    + split; [ | reflexivity ]. intros _. apply Exists_cons_hd, E.
Qed.

(** Apart from the template, nothing in the verification throws: a failure
    of the Oracle call is turned into a verdict. *)
Lemma verification_returns (steps : list string) (ctx : ExecutionContext)
    (o : Options) (env : Env) :
  JS.truthy (verificationPrompt o) = true
  \/ Forall (fun c => cs_result c <> None) (completedSteps ctx) ->
  exists v env',
    verifyRequestFulfillment steps ctx o env = (Returned v, env')
    /\ (analysis v = None ->
        fulfilled v = false
        /\ exists msg,
            issues v = ["Verification error: " ++ msg]%string
            /\ v_error v = Some msg).
Proof.
  intros H.
  unfold verifyRequestFulfillment, verification_prompt, try_catch, bind,
    call_queryOpenAI, ret, throw.
  destruct (JS.truthy (verificationPrompt o)).
  - cbv beta iota.
    destruct (queryOpenAI _ _ (world env)) as [[resp | e] w];
      do 2 eexists; (split; [ reflexivity | ]); cbn [analysis];
      [ discriminate | intros _; cbn; eauto ].
  - destruct H as [H | H]; [ discriminate | ].
    destruct (all_some (mapi verification_block (completedSteps ctx))) eqn:A.
    + cbv beta iota.
      destruct (queryOpenAI _ _ (world env)) as [[resp | e] w];
        do 2 eexists; (split; [ reflexivity | ]); cbn [analysis];
        [ discriminate | intros _; cbn; eauto ].
    + exfalso. apply (all_some_blocks _ 0) in A.
      apply Exists_exists in A as (c & Hin & Hc).
      rewrite Forall_forall in H. exact (H c Hin Hc).
Qed.

(** X10.  The verification throws exactly when it has to write its own
    prompt and some completed step has no result; the error is that of
    [.substring] on [undefined], and nothing has been called.  With a prompt
    of the caller's, or when every completed step has a result, it returns;
    and if the Oracle call fails, the verdict is not fulfilled, with the
    error as the only issue. *)
Theorem verification_throws_on_a_missing_result (steps : list string)
    (ctx : ExecutionContext) (o : Options) (env : Env) :
  (JS.truthy (verificationPrompt o) = false
   /\ Exists (fun c => cs_result c = None) (completedSteps ctx) ->
   verifyRequestFulfillment steps ctx o env = (Thrown undefined_substring, env))
  /\ (JS.truthy (verificationPrompt o) = true
      \/ Forall (fun c => cs_result c <> None) (completedSteps ctx) ->
      exists v env',
        verifyRequestFulfillment steps ctx o env = (Returned v, env')
        /\ (analysis v = None ->
            fulfilled v = false
            /\ exists msg,
                issues v = ["Verification error: " ++ msg]%string
                /\ v_error v = Some msg)).
Proof.
  split.
  - intros [Hp Hex].
    unfold verifyRequestFulfillment, verification_prompt, bind.
    rewrite Hp.
    apply (all_some_blocks _ 0) in Hex. unfold mapi. rewrite Hex. reflexivity.
  - apply verification_returns.
Qed.


End ReadingAnswers.

(* ================================================================== *)
(** * Properties of the plan entry point *)
(* ================================================================== *)

Section PlanEntryProperties.

Context {C : Collaborators}.

Local Open Scope list_scope.

(** X12.  [executePlanWithResilience] settles the shape of the plan before
    anything runs.  An object without [steps] is rejected with Invalid plan
    response format, and nothing has been called.  An array is run as it
    is, the steps of a planner response are run by their descriptions, and
    an object whose [steps] is the empty array is accepted: without
    verification it is reported as a success, with no iteration and the
    success rate NaN. *)
Theorem plan_is_checked_before_anything_runs :
  (forall o env,
      executePlanWithResilience (PlanObject None) o env
      = (Thrown (JS.mkError "Invalid plan response format"), env))
  /\ (forall steps o,
         executePlanWithResilience (PlanArray steps) o
         = executeStepsWithResilience steps o)
  /\ (forall descriptions o,
         JS.truthy (hd_error descriptions) = true ->
         executePlanWithResilience
           (PlanObject (Some (map (fun d => ItemObject (Some d)) descriptions))) o
         = executeStepsWithResilience descriptions o)
  /\ (forall o env,
         verify o = false ->
         exists s,
           executePlanWithResilience (PlanObject (Some [])) o env
           = (Returned (Some s), env)
           /\ s_success s = true
           /\ iterations s = 0
           /\ successRate s = JS.NaN).
Proof.
  split; [ | split; [ | split ] ].
  - reflexivity.
  - reflexivity.
  - intros descriptions o H.
    unfold executePlanWithResilience, plan_steps.
    destruct descriptions as [ | d ds]; [ discriminate | ].
    cbn [map stepDescription_of hd_error] in *. rewrite H.
    rewrite map_map. cbn [stepDescription_of description_text].
    rewrite map_id. reflexivity.
  - intros o env Hv.
    unfold executePlanWithResilience, plan_steps. cbn [JS.truthy map].
    unfold executeStepsWithResilience, executeStepsWithResilience_upto, bind.
    assert (R : run_loop o (Z.to_nat (get_maxIterations o)) (initial_state [] o)
                  env = (Returned (Some (initial_state [] o)), env))
      by (destruct (Z.to_nat (get_maxIterations o)); reflexivity).
    rewrite R. unfold summarize, bind. rewrite Hv.
    eexists. split; [ reflexivity | repeat split ].
Qed.

End PlanEntryProperties.

(* ================================================================== *)
(** * Properties of the orchestrator *)
(* ================================================================== *)

Section OrchestratorProperties.

Import AgentOrchestrator.

Context {S : Services}.

Local Open Scope list_scope.

Lemma skipn_length_app {A : Type} (l r : list A) :
  skipn (length l) (l ++ r) = r.
Proof. induction l as [ | x l IH]; [ reflexivity | exact IH ]. Qed.

Ltac open_pipeline :=
  unfold calls_of, processUserRequest, agent_chain, action_handling,
    memory_update, load_memory, call, catching, and_then, give.

Ltac service_cases :=
  repeat (cbn [fst snd outside calls negb];
          match goal with
          | |- context [getMemoryContextString ?w] =>
              destruct (getMemoryContextString w) as [[? | ?] ?]
          | |- context [queryOpenAI_personality ?a ?b ?c ?w] =>
              destruct (queryOpenAI_personality a b c w) as [[? | ?] ?]
          | |- context [redactor_redact ?a ?w] =>
              destruct (redactor_redact a w) as [[? | ?] ?]
          | |- context [queryOpenAI_router ?a ?b ?w] =>
              destruct (queryOpenAI_router a b w) as [[? | ?] ?]
          | |- context [queryOpenAI_agent ?a ?b ?c ?w] =>
              destruct (queryOpenAI_agent a b c w) as [[? | ?] ?]
          | |- context [redactor_substitute ?a ?w] =>
              destruct (redactor_substitute a w) as [[? | ?] ?]
          | |- context [executeAgentCommand ?a ?b ?w] =>
              destruct (executeAgentCommand a b w) as [[? | ?] ?]
          | |- context [addInteraction ?a ?b ?w] =>
              destruct (addInteraction a b w) as [[? | ?] ?]
          | |- context [if negb (flag (?f ?c)) then _ else _] =>
              destruct (flag (f c)) eqn:?
          | |- context [if flag (?f ?c) then _ else _] =>
              destruct (flag (f c)) eqn:?
          | |- context [if negb (shouldProceed ?l) then _ else _] =>
              destruct (shouldProceed l) eqn:?
          | |- context [if String.eqb (choice ?r) ?k then _ else _] =>
              destruct (String.eqb (choice r) k) eqn:?
          end);
  cbn [fst snd outside calls negb].

(** The calls of a run, once every branch has been taken. *)
Ltac made_calls :=
  cbn [snd calls]; rewrite <- ?app_assoc; cbn [app];
  rewrite ?skipn_length_app, ?skipn_all.

Ltac among :=
  cbn [In] in *;
  repeat match goal with
         | H : _ \/ _ |- _ => destruct H
         | H : False |- _ => destruct H
         | H : _ = _ :> Call |- _ => first [ discriminate H | injection H as ? ]
         end; subst.

Definition is_memory_read (c : Call) : Prop :=
  match c with MemoryRead _ => True | _ => False end.

(** The personality layer is asked the query as it came, and nothing but a
    read of the memory comes before. *)
Lemma personality_comes_first (userQuery : string) (config : Config)
    (s : Session) :
  flag (skipPersonality config) = false ->
  exists pre history answer rest,
    calls_of (processUserRequest userQuery config) s
    = pre
      ++ AskedPersonality userQuery history (additionalContext config) answer
         :: rest
    /\ Forall is_memory_read pre.
Proof.
  intros Hp. open_pipeline. rewrite Hp.
  service_cases; made_calls;
    first [ exists []; do 3 eexists; split; [ reflexivity | constructor ]
          | eexists [_]; do 3 eexists;
            split; [ reflexivity | repeat constructor ] ].
Qed.

(** X13.  Where the raw request goes.  Unless [skipPersonality] is set, an
    Oracle call of [processUserRequest] carries the user's query as it was
    typed, and at most a read of the memory comes before that call: the
    redactor has not been used yet.  And every interaction that is handed to
    the memory system carries the raw query too, whatever [skipRedaction]
    says. *)
Theorem raw_query_reaches_oracle_and_memory (userQuery : string)
    (config : Config) (s : Session) :
  (flag (skipPersonality config) = false ->
   exists pre history answer rest,
     calls_of (processUserRequest userQuery config) s
     = pre
       ++ AskedPersonality userQuery history (additionalContext config) answer
          :: rest
     /\ Forall is_memory_read pre)
  /\ (forall interaction data result,
         In (MemorySaved interaction data result)
            (calls_of (processUserRequest userQuery config) s) ->
         query interaction = userQuery).
Proof.
  split.
  - apply personality_comes_first.
  - intros interaction data result.
    open_pipeline.
    service_cases; made_calls; intros H; among; reflexivity.
Qed.

(** X14.  When the personality layer answers with [shouldProceed] false,
    the request ends there: the result is the early answer (choice
    lumenPersonality; nothing routed, redacted, executed or saved), and the
    Oracle call of the personality layer is the last call that was made. *)
Theorem lumen_can_answer_alone (userQuery : string) (config : Config)
    (s : Session) (result : Result) (s' : Session) (l : LumenPersonality) :
  processUserRequest userQuery config s = (Returned result, s') ->
  lumenPersonality result = Some l ->
  shouldProceed l = false ->
  result = handled_by_lumen l
  /\ exists pre history,
      calls_of (processUserRequest userQuery config) s
      = pre ++ [AskedPersonality userQuery history (additionalContext config)
                  (Returned l)]
      /\ Forall is_memory_read pre.
Proof.
  open_pipeline.
  service_cases; made_calls;
    intros H; try discriminate H; injection H as <- <-;
    cbn [lumenPersonality handled_by_lumen];
    intros E; try discriminate E; injection E as <-;
    intros Hl;
    try congruence;
    (split; [ reflexivity | ]);
    first [ exists []; eexists; split; [ reflexivity | constructor ]
          | eexists [_]; eexists; split; [ reflexivity | repeat constructor ] ].
Qed.

(** Unless redaction is skipped, the router is asked what the redactor has
    returned. *)
Lemma router_reads_what_redact_returned (userQuery : string) (config : Config)
    (s : Session) :
  flag (skipRedaction config) = false ->
  forall query context answer,
    In (AskedRouter query context answer)
       (calls_of (processUserRequest userQuery config) s) ->
    exists text,
      In (Redacted text (Returned query))
         (calls_of (processUserRequest userQuery config) s).
Proof.
  intros Hr query context answer. open_pipeline. rewrite Hr.
  service_cases; made_calls; intros H; among;
    eexists; cbn [In]; eauto 10.
Qed.

(** X15.  Unless [skipRedaction] is set, the router and the agent are asked
    what the redactor returned.  The redactor is given the user's query, or
    the [internalGuidance] of the personality layer when there is one; every
    prompt of the router is a text that [redact] has returned; and the agent
    is asked the text that the router was asked, always under one of the six
    schemas. *)
Theorem router_and_agent_read_the_redacted_text (userQuery : string)
    (config : Config) (s : Session) :
  flag (skipRedaction config) = false ->
  let made := calls_of (processUserRequest userQuery config) s in
  (forall text result,
      In (Redacted text result) made ->
      text = userQuery
      \/ exists history l,
          In (AskedPersonality userQuery history (additionalContext config)
                (Returned l)) made
          /\ text = internalGuidance l)
  /\ (forall query context answer,
         In (AskedRouter query context answer) made ->
         exists text, In (Redacted text (Returned query)) made)
  /\ (forall schema query context answer,
         In (AskedAgent schema query context answer) made ->
         (exists name, schema = Some name)
         /\ exists routerContext decision,
             In (AskedRouter query routerContext (Returned decision)) made).
Proof.
  intros Hr made. subst made.
  split; [ | split ].
  - intros text result. open_pipeline. rewrite Hr.
    service_cases; made_calls; try destruct (JS.truthy _);
      intros H; among;
      solve [ auto | right; do 2 eexists; split; [ | reflexivity ];
                     cbn [In]; eauto 10 ].
  - apply router_reads_what_redact_returned, Hr.
  - intros schema query context answer. open_pipeline. rewrite Hr.
    service_cases; made_calls; intros H; among;
      (split; [ eexists; reflexivity | do 2 eexists; cbn [In]; eauto 10 ]).
Qed.

(** How a call has thrown the error [e]: a call to the Oracle or to the
    redactor. *)
Definition rejected_by (e : JS.Error) (c : Call) : Prop :=
  match c with
  | AskedPersonality _ _ _ (Thrown e')
  | AskedRouter _ _ (Thrown e')
  | AskedAgent _ _ _ (Thrown e')
  | Redacted _ (Thrown e')
  | Substituted _ (Thrown e') => e' = e
  | _ => False
  end.

(** X16.  When [processUserRequest] throws, the error is the one that the
    last call it made has thrown, and that call was to the Oracle or to the
    redactor.  A failure of the memory system or of the command runner never
    escapes. *)
Theorem only_oracle_and_redactor_failures_escape (userQuery : string)
    (config : Config) (s : Session) (e : JS.Error) :
  fst (processUserRequest userQuery config s) = Thrown e ->
  exists before last,
    calls_of (processUserRequest userQuery config) s = before ++ [last]
    /\ rejected_by e last.
Proof.
  open_pipeline.
  service_cases; made_calls; intros H; try discriminate H;
    injection H as <-;
    first [ exists []; eexists; split; [ reflexivity | reflexivity ]
          | eexists [_]; eexists; split; [ reflexivity | reflexivity ]
          | eexists [_; _]; eexists; split; [ reflexivity | reflexivity ]
          | eexists [_; _; _]; eexists; split; [ reflexivity | reflexivity ]
          | eexists [_; _; _; _]; eexists; split; [ reflexivity | reflexivity ]
          | eexists [_; _; _; _; _]; eexists;
            split; [ reflexivity | reflexivity ]
          | eexists [_; _; _; _; _; _]; eexists;
            split; [ reflexivity | reflexivity ]
          | eexists [_; _; _; _; _; _; _]; eexists;
            split; [ reflexivity | reflexivity ] ].
Qed.

Definition is_executed (c : Call) : bool :=
  match c with Executed _ _ _ => true | _ => false end.

(** The options of a command are the flags of the [config], with their
    defaults; the command is that of the agent's answer, restored by the
    redactor unless redaction is skipped. *)
Lemma executed_with_the_flags (userQuery : string) (config : Config)
    (s : Session) (request : CommandRequest) (options : ExecOptions)
    (result : Outcome CommandResult) :
  In (Executed request options result)
     (calls_of (processUserRequest userQuery config) s) ->
  options = {| autoApprove := Some (flag (cfg_autoApprove config));
               dryRun := Some (flag (cfg_dryRun config));
               timeout := Some (get_timeout config);
               allowDangerous := Some (flag (cfg_allowDangerous config)) |}
  /\ choice (fields (request_answer request)) = "terminalCommand"%string
  /\ (exists schema query context,
         In (AskedAgent schema query context
               (Returned (request_answer request)))
            (calls_of (processUserRequest userQuery config) s))
  /\ (if flag (skipRedaction config)
      then request_command request
           = terminalCommand (fields (request_answer request))
      else In (Substituted (terminalCommand (fields (request_answer request)))
                 (Returned (request_command request)))
              (calls_of (processUserRequest userQuery config) s)).
Proof.
  open_pipeline.
  service_cases; made_calls; intros H; among;
    (split; [ reflexivity | ]);
    (split; [ apply String.eqb_eq; assumption | ]);
    (split; [ do 3 eexists; cbn [In]; eauto 10 | ]);
    first [ reflexivity | cbn [In]; eauto 10 ].
Qed.

(** X17.  [processUserRequest] runs at most one command.  It is the command
    of the agent's answer, whose choice is then terminalCommand; it is run
    with the caller's flags ([autoApprove], [dryRun] and [allowDangerous]
    false and a timeout of 30000 ms where the caller has not set them); and
    its text is what the redactor's [substitute] returned for the
    [terminalCommand] of the answer, or that text itself under
    [skipRedaction]. *)
Theorem one_command_with_the_callers_flags (userQuery : string)
    (config : Config) (s : Session) :
  let made := calls_of (processUserRequest userQuery config) s in
  length (filter is_executed made) <= 1
  /\ forall request options result,
      In (Executed request options result) made ->
      options = {| autoApprove := Some (flag (cfg_autoApprove config));
                   dryRun := Some (flag (cfg_dryRun config));
                   timeout := Some (get_timeout config);
                   allowDangerous := Some (flag (cfg_allowDangerous config)) |}
      /\ choice (fields (request_answer request)) = "terminalCommand"%string
      /\ (exists schema query context,
             In (AskedAgent schema query context
                   (Returned (request_answer request))) made)
      /\ (if flag (skipRedaction config)
          then request_command request
               = terminalCommand (fields (request_answer request))
          else In (Substituted (terminalCommand (fields (request_answer request)))
                     (Returned (request_command request))) made).
Proof.
  intros made. subst made.
  split.
  - open_pipeline. service_cases; made_calls; cbn; lia.
  - intros request options result.
    apply executed_with_the_flags.
Qed.

(** X18.  What the returned object says after a failure.  If saving the
    interaction has failed, [interactionSaved] is true all the same.  If the
    command runner has thrown, [commandExecuted] is true all the same, the
    execution result is the error object and the execution status is error.
    And when the agent's answer has a [response], that is the [response] of
    the result, whatever the personality layer has answered. *)
Theorem failures_are_reported_as_done (userQuery : string) (config : Config)
    (s : Session) (result : Result) (s' : Session) :
  processUserRequest userQuery config s = (Returned result, s') ->
  let made := calls_of (processUserRequest userQuery config) s in
  (forall interaction data e,
      In (MemorySaved interaction data (Thrown e)) made ->
      interactionSaved (metadata result) = true)
  /\ (forall request options e,
         In (Executed request options (Thrown e)) made ->
         commandExecuted (metadata result) = true
         /\ result_executionResult result
            = Some (Crashed (JS.message e) (Error_toString e))
         /\ executionStatus (metadata result) = Some "error"%string)
  /\ (forall a r,
         answer result = Some a ->
         response (fields a) = Some r ->
         result_response result = Some r).
Proof.
  intros H made. subst made. revert H. open_pipeline.
  service_cases; made_calls; intros H; try discriminate H;
    injection H as <- <-;
    (split; [ | split ];
     [ intros interaction data e' Hin; among; reflexivity
     | intros request options e' Hin; among; repeat split; assumption
     | intros agent text Ha Hr;
       cbn [answer result_response handled_by_lumen] in *;
       first [ discriminate Ha | injection Ha as <- ];
       rewrite Hr; reflexivity ]).
Qed.


(** [schemaMap[name]] is [undefined] for the names that are neither a key
    of the map nor inherited, and for no other. *)
Lemma schemaMap_undefined (name : string) :
  schemaMap name = Undefined
  <-> (forall schema, ~ In (name, schema) schema_names)
      /\ inherited name = false.
Proof.
  unfold schemaMap.
  destruct (find (fun e => String.eqb (fst e) name) schema_names)
    as [[key schema] | ] eqn:F.
  - split; [ discriminate | ].
    intros [H _]. apply find_some in F as [Hin Hkey].
    apply String.eqb_eq in Hkey. cbn [fst] in Hkey. subst key.
    exfalso. exact (H schema Hin).
  - destruct (inherited name).
    + split; [ discriminate | intros [_ H]; discriminate H ].
    + split; [ | reflexivity ]. intros _. split; [ | reflexivity ].
      intros schema Hin. apply (find_none _ _ F) in Hin.
      cbn [fst] in Hin. rewrite String.eqb_refl in Hin. discriminate Hin.
Qed.

(** X19.  [orchestrateQuery] asks the Oracle at most twice, both times with
    the caller's query and context: first the router, then one agent.  The
    agent is given the schema stored under the router's choice; the
    baseAgent schema when the choice is no property of [schemaMap] at all,
    in which case the result says that the fallback was used; and no schema
    when the choice is a property that the map inherits.  A failure of
    either call is thrown on.  The fallback is taken exactly for the names
    that are neither one of the six keys nor inherited. *)
Theorem orchestrateQuery_asks_twice (query : string)
    (userContext : option ContextObject) (s : Session) :
  ((exists e,
      fst (orchestrateQuery query userContext s) = Thrown e
      /\ calls_of (orchestrateQuery query userContext) s
         = [AskedRouter query (RouteQuery userContext) (Thrown e)])
  \/ (exists decision answer,
         calls_of (orchestrateQuery query userContext) s
         = [AskedRouter query (RouteQuery userContext) (Returned decision);
            AskedAgent
              match schemaMap (route_choice decision) with
              | Entry name => Some name
              | Inherited => None
              | Undefined => Some baseAgent
              end query (UserContext userContext) answer]
         /\ fst (orchestrateQuery query userContext s)
            = match answer with
              | Returned a =>
                  Returned
                    {| routed_answer := a;
                       routingMetadata :=
                         match schemaMap (route_choice decision) with
                         | Undefined =>
                             FallbackUsed (route_choice decision)
                                          (explanation decision)
                         | _ =>
                             Selected (route_choice decision)
                                      (route_response decision)
                                      (explanation decision)
                         end |}
              | Thrown e => Thrown e
              end))
  /\ (forall name,
         schemaMap name = Undefined
         <-> (forall schema, ~ In (name, schema) schema_names)
             /\ inherited name = false).
Proof.
  split; [ | apply schemaMap_undefined ].
  unfold calls_of, orchestrateQuery, call, and_then, give.
  destruct (queryOpenAI_router query (RouteQuery userContext) (outside s))
    as [[decision | e] w]; cbn [fst snd outside calls].
  - right. exists decision.
    destruct (schemaMap (route_choice decision)) as [name | | ];
      cbn [fst snd outside calls];
      match goal with
      | |- context [queryOpenAI_agent ?a ?b ?c ?w] =>
          destruct (queryOpenAI_agent a b c w) as [[a' | e] w']
      end;
      made_calls; eexists; split; reflexivity.
  - left. exists e. made_calls. split; reflexivity.
Qed.

(** X20.  A message that the Telegram bot hands to [processUserRequest] is
    sent to the Oracle as it was typed, in the call of the personality
    layer, although the handler asks for redaction; after that, the router
    is asked only what the redactor returned.  A command that the request
    leads to is run with [dryRun] true, [autoApprove] and [allowDangerous]
    false and a timeout of 30000 ms. *)
Theorem telegram_requests_run_dry_but_are_sent_raw (text : string)
    (context : ContextObject) (s : Session) :
  let made := calls_of (processUserRequest text (telegram_config context)) s in
  (exists pre history answer rest,
      made = pre ++ AskedPersonality text history (Some context) answer :: rest
      /\ Forall is_memory_read pre)
  /\ (forall query routerContext answer,
         In (AskedRouter query routerContext answer) made ->
         exists redacted, In (Redacted redacted (Returned query)) made)
  /\ (forall request options result,
         In (Executed request options result) made ->
         options = {| autoApprove := Some false;
                      dryRun := Some true;
                      timeout := Some 30000%Z;
                      allowDangerous := Some false |}).
Proof.
  intros made. subst made. split; [ | split ].
  - apply (personality_comes_first text (telegram_config context) s).
    reflexivity.
  - apply router_reads_what_redact_returned. reflexivity.
  - intros request options result H.
    apply executed_with_the_flags in H as (-> & _). reflexivity.
Qed.

End OrchestratorProperties.

(* ================================================================== *)
(** * The loop and the vault on concrete runs *)
(* ================================================================== *)

(** C1, refuted as stated.  A one-step plan whose step text holds a
    password, and an Oracle that answers with a command that uses the
    placeholder: the Oracle receives the step text with the password in it,
    not its redaction, and the command runner receives the placeholder, not
    the restored secret. *)
Lemma loop_sends_secret_and_runs_placeholder :
  exists prompt qopts resp cmd opts result,
    trace (snd (@executeStepsWithResilience scripted
                  ["login with password: hunter2"] no_options
                  (script [Returned (runs "echo {{PASSWORD_1}}")]
                          [Returned succeeded])))
    = [EvQuery prompt qopts (Returned resp); EvExec cmd opts result]
    /\ contains "hunter2" prompt = true
    /\ SecretVault.safeText
         (SecretVault.redact SecretVault.default_detectors prompt)
       <> prompt
    /\ terminalCommand resp = Some "echo {{PASSWORD_1}}"
    /\ SecretVault.substitute "echo {{PASSWORD_1}}"
         (SecretVault.mapping
            (SecretVault.redact SecretVault.default_detectors prompt))
       = "echo hunter2"
    /\ command cmd = Some "echo {{PASSWORD_1}}".
Proof.
  do 6 eexists. split; [ vm_compute; reflexivity | ].
  repeat split; try (vm_compute; reflexivity).
  vm_compute. discriminate.
Qed.



(** C4, refuted as stated.  With the Oracle out of reach every attempt
    fails and so does every reassessment: after five failures in a row, with
    the threshold at three, no reassessment has been counted, and an
    iteration that reaches the threshold leaves the count of consecutive
    failures standing. *)
Lemma failed_reassessment_is_not_counted :
  (exists s,
      fst (@executeStepsWithResilience scripted ["deploy"]
             (options_with (Some 5%Z) None false) (script [] []))
      = Returned (Some s)
      /\ failureCount s = 5
      /\ s_reassessments s = 0)
  /\ (exists st' env',
         @loop_body scripted (options_with None (Some 1%Z) false)
           (initial_state ["deploy"] (options_with None (Some 1%Z) false))
           (script [] [])
         = (Returned st', env')
         /\ consecutiveFailures st' = 1
         /\ reassessments (context st') = 0).
Proof.
  split.
  - eexists. split; [ vm_compute; reflexivity | split; reflexivity ].
  - do 2 eexists. split; [ vm_compute; reflexivity | split; reflexivity ].
Qed.

(** A reassessment that succeeds: the step fails, the threshold is 1, and
    the Oracle answers with a numbered list of two steps. *)
Lemma reassessment_at_threshold_witness :
  exists st' env',
    @loop_body scripted (options_with None (Some 1%Z) false)
      (initial_state ["deploy"] (options_with None (Some 1%Z) false))
      (script [Returned (runs "kubectl apply");
               Returned (says ("Try this:" ++ JS.nl ++ "1. build the image"
                               ++ JS.nl ++ "2. push the image"))]
              [Returned failed])
    = (Returned st', env')
    /\ currentSteps st' = ["build the image"; "push the image"]
    /\ reassessments (context st') = 1
    /\ consecutiveFailures st' = 0.
Proof.
  edestruct (@reassessment_at_threshold scripted
               (options_with None (Some 1%Z) false)
               (initial_state ["deploy"] (options_with None (Some 1%Z) false))
               (script [Returned (runs "kubectl apply");
                        Returned (says ("Try this:" ++ JS.nl
                                        ++ "1. build the image" ++ JS.nl
                                        ++ "2. push the image"))]
                       [Returned failed]))
    as (env' & _ & H).
  - reflexivity.
  - reflexivity.
  - vm_compute. discriminate.
  - cbn in H. do 2 eexists. split; [ exact H | repeat split ].
Defined.



(** A failing build whose recovery command succeeds. *)
Lemma successful_recovery_resets_the_count_witness :
  exists st' env',
    @loop_body scripted no_options (initial_state ["build"] no_options)
      (script [Returned (runs "make"); Returned (runs "make clean")]
              [Returned failed; Returned succeeded])
    = (Returned st', env')
    /\ consecutiveFailures st' = 0
    /\ currentStepIndex st' = 0
    /\ completedSteps (context st') = []
    /\ length (failures (context st')) = 1.
Proof.
  edestruct (@successful_recovery_resets_the_count scripted no_options
               (initial_state ["build"] no_options)
               (script [Returned (runs "make"); Returned (runs "make clean")]
                       [Returned failed; Returned succeeded]))
    as [(env' & H) _].
  - reflexivity.
  - reflexivity.
  - vm_compute. reflexivity.
  - reflexivity.
  - reflexivity.
  - reflexivity.
  - reflexivity.
  - do 2 eexists. split; [ exact H | repeat split ].
Defined.

(** C7, where the code falls short.  Two runs in which the loop throws
    instead of returning a summary: a recovery command whose execution
    throws (the call is outside every [try]), and a verified run whose only
    step was answered with empty code (the COMPLETED WORK section of the
    verification prompt takes [.substring] of [JSON.stringify(undefined)],
    again outside the [try]). *)
Lemma loop_throws :
  fst (@executeStepsWithResilience scripted ["build"] no_options
         (script [Returned (runs "make"); Returned (runs "make clean")]
                 [Returned failed; Thrown (JS.mkError "spawn ENOMEM")]))
  = Thrown (JS.mkError "spawn ENOMEM")
  /\ fst (@executeStepsWithResilience scripted ["write the parser"]
            (options_with None None true)
            (script [Returned (codes (Some ""))] []))
     = Thrown undefined_substring.
Proof.
  split; vm_compute; reflexivity.
Qed.


(* ================================================================== *)
(** * Further concrete runs *)
(* ================================================================== *)

(** The books of that build: two iterations, one failure, one completed
    step. *)
Lemma every_iteration_is_recorded_once_witness :
  exists s env',
    @executeStepsWithResilience scripted ["build"] no_options build_twice
    = (Returned (Some s), env')
    /\ iterations s = 2
    /\ iterations s = length (s_completedSteps s) + failureCount s
    /\ length (s_recoveryAttempts s) + s_reassessments s <= failureCount s.
Proof.
  do 2 eexists. split; [ vm_compute; reflexivity | ].
  edestruct (@every_iteration_is_recorded_once scripted ["build"] no_options
               build_twice) as (_ & H & _ & K); [ vm_compute; reflexivity | ].
  split; [ reflexivity | split; [ exact H | exact K ] ].
Defined.

(** The same build has asked the Oracle three times: for the step twice and
    for the recovery once. *)
Lemma calls_of_a_run_witness :
  exists s env',
    @executeStepsWithResilience scripted ["build"] no_options build_twice
    = (Returned (Some s), env')
    /\ queries (trace env') = 3
    /\ queries (trace env')
       = queries (trace build_twice) + iterations s + failureCount s
         + match verification s with Some _ => 1 | None => 0 end.
Proof.
  do 2 eexists. split; [ vm_compute; reflexivity | ].
  edestruct (@calls_of_a_run scripted ["build"] no_options build_twice)
    as (H & _); [ vm_compute; reflexivity | ].
  split; [ reflexivity | exact H ].
Defined.

(** Three steps, two iterations allowed: the first two steps are completed,
    in order. *)
Lemma cooperative_run_completes_in_order_witness :
  oracle_delivers (C := obliging)
  /\ exists s env',
      @executeStepsWithResilience obliging ["a"; "b"; "c"]
        (options_with (Some 2%Z) None false) (@mkEnv obliging tt [])
      = (Returned (Some s), env')
      /\ iterations s = 2
      /\ map cs_step (s_completedSteps s) = ["a"; "b"]
      /\ s_success s = false.
Proof.
  assert (H : oracle_delivers (C := obliging)).
  { intros prompt qopts w. do 2 eexists.
    split; [ reflexivity | right; left; reflexivity ]. }
  split; [ exact H | ].
  destruct (@cooperative_run_completes_in_order obliging ["a"; "b"; "c"]
              (options_with (Some 2%Z) None false) (@mkEnv obliging tt [])
              H eq_refl)
    as (s & env' & E & Hit & Hmap & _ & _ & _ & _ & Hok & _).
  exists s, env'. split; [ exact E | ].
  split; [ exact Hit | ].
  split; [ rewrite Hmap, Hit; reflexivity | exact Hok ].
Defined.

(** With [maxIterations] at 0 a deployment is not even attempted. *)
Lemma nothing_runs_without_steps_or_budget_witness :
  exists s,
    @executeStepsWithResilience scripted ["deploy"]
      (options_with (Some 0%Z) None true)
      (script [Returned (runs "kubectl apply")] [Returned succeeded])
    = (Returned (Some s),
       script [Returned (runs "kubectl apply")] [Returned succeeded])
    /\ s_success s = false
    /\ reachedMaxIterations s = true.
Proof.
  eexists. split.
  - apply (@nothing_runs_without_steps_or_budget scripted ["deploy"]
             (options_with (Some 0%Z) None true)).
    + right. unfold get_maxIterations. simpl. lia.
    + right. discriminate.
  - split; reflexivity.
Defined.

(** A build whose [make] exits with an error is recorded as Unknown
    error. *)
Lemma failed_command_is_an_unknown_error_witness :
  exists st' env',
    @loop_body scripted no_options (initial_state ["build"] no_options)
      (script [Returned (runs "make")] [Returned failed])
    = (Returned st', env')
    /\ map f_error (failures (context st')) = ["Unknown error"].
Proof.
  do 2 eexists. split; [ vm_compute; reflexivity | ].
  edestruct (@failed_command_is_an_unknown_error scripted no_options
               (initial_state ["build"] no_options)
               (script [Returned (runs "make")] [Returned failed]))
    as ((recoveries & H & _) & _).
  - reflexivity.
  - left. split; [ reflexivity | ].
    do 2 eexists. split; [ reflexivity | discriminate ].
  - vm_compute. reflexivity.
  - rewrite H. reflexivity.
Defined.


(** An assessment that calls the deployment incomplete is taken as a
    fulfilled request. *)
Lemma incomplete_counts_as_complete_witness :
  exists v env',
    @verifyRequestFulfillment scripted ["deploy"]
      (context (initial_state ["deploy"] no_options)) no_options
      (script [Returned (says "The deployment is incomplete.")] [])
    = (Returned v, env')
    /\ analysis v = Some "The deployment is incomplete."
    /\ fulfilled v = true.
Proof.
  do 2 eexists. split; [ vm_compute; reflexivity | ].
  split; [ reflexivity | ].
  eapply (@incomplete_counts_as_complete scripted ["deploy"]
            (context (initial_state ["deploy"] no_options)) no_options
            (script [Returned (says "The deployment is incomplete.")] []));
    [ vm_compute; reflexivity | reflexivity | vm_compute; reflexivity ].
Defined.


(** ** Requests against staged services *)

Section StagedRequests.

Import AgentOrchestrator.

(** A greeting is answered by the personality layer alone, after one read of
    the memory and one Oracle call. *)
Lemma lumen_can_answer_alone_witness :
  exists result s',
    @processUserRequest greeting "hello" (no_config greeting)
      (fresh_session greeting tt)
    = (Returned result, s')
    /\ result = handled_by_lumen (lumen "" false)
    /\ length (@calls_of greeting _
                 (processUserRequest "hello" (no_config greeting))
                 (fresh_session greeting tt))
       = 2.
Proof.
  do 2 eexists. split; [ reflexivity | ].
  edestruct (@lumen_can_answer_alone greeting "hello" (no_config greeting)
               (fresh_session greeting tt)) as (H & _);
    [ reflexivity | reflexivity | reflexivity | ].
  split; [ exact H | reflexivity ].
Defined.

(** The router of the login request is asked the redacted guidance. *)
Lemma router_and_agent_read_the_redacted_text_witness :
  flag (skipRedaction (no_config login)) = false
  /\ exists context answer,
      In (AskedRouter "Log in with password: {{PASSWORD_1}}" context answer)
         (@calls_of login _
            (processUserRequest "log me in, password: hunter2" (no_config login))
            (fresh_session login tt))
      /\ exists text,
          In (Redacted text (Returned "Log in with password: {{PASSWORD_1}}"))
             (@calls_of login _
                (processUserRequest "log me in, password: hunter2" (no_config login))
                (fresh_session login tt)).
Proof.
  split; [ reflexivity | ].
  destruct (@router_and_agent_read_the_redacted_text login
              "log me in, password: hunter2" (no_config login) (fresh_session login tt)
              eq_refl) as (_ & H & _).
  do 2 eexists. split.
  - vm_compute. repeat first [ left; reflexivity | right ].
  - eapply H. vm_compute. repeat first [ left; reflexivity | right ].
Defined.

(** The request is rejected with the error of the router call. *)
Lemma only_oracle_and_redactor_failures_escape_witness :
  fst (@processUserRequest unrouted "log me in" (no_config unrouted) (fresh_session unrouted tt))
  = Thrown (JS.mkError "rate limited")
  /\ exists before last,
      @calls_of unrouted _ (processUserRequest "log me in" (no_config unrouted))
        (fresh_session unrouted tt)
      = (before ++ [last])%list
      /\ rejected_by (JS.mkError "rate limited") last.
Proof.
  split; [ reflexivity | ].
  apply (@only_oracle_and_redactor_failures_escape unrouted "log me in"
           (no_config unrouted) (fresh_session unrouted tt)).
  reflexivity.
Defined.

(** The login request with the memory system down and the runner crashing:
    the result still says saved and executed. *)
Lemma failures_are_reported_as_done_witness :
  exists result s',
    @processUserRequest login "log me in, password: hunter2" (no_config login)
      (fresh_session login tt)
    = (Returned result, s')
    /\ interactionSaved (metadata result) = true
    /\ commandExecuted (metadata result) = true
    /\ executionStatus (metadata result) = Some "error".
Proof.
  do 2 eexists. split; [ vm_compute; reflexivity | ].
  destruct (@failures_are_reported_as_done login
              "log me in, password: hunter2" (no_config login) (fresh_session login tt)
              _ _ eq_refl) as (Hsaved & Hran & _).
  split.
  - eapply Hsaved. vm_compute. repeat first [ left; reflexivity | right ].
  - edestruct Hran as (H1 & _ & H3).
    + vm_compute. repeat first [ left; reflexivity | right ].
    + split; [ exact H1 | exact H3 ].
Defined.

End StagedRequests.
